(** * upscale-app-icon: a verified model of [scripts/upscale-app-icon.py]

    The script takes one argument (a local path or an http(s) URL), decodes
    the image it names, resizes it to 1024x1024 with Pillow's nearest
    neighbour filter and saves it as the iOS app icon.

    The development has three layers:
    - [PyStr] and [PosixPath]: the [str] methods and the [os.path] functions
      the script calls, transcribed from CPython's [posixpath.py];
    - [Imaging]: RGBA pixel buffers and Pillow's nearest neighbour scaling;
    - the process: a world (file system, network, standard streams) threaded
      through a state-and-exception monad, and [main] written in it line by
      line. *)

From Stdlib Require Import ZArith String Ascii List Bool Lia.
From stdpp Require Import base option list gmap strings.

Local Open Scope string_scope.

(** ** Python [str] methods used by the script *)

Module PyStr.

(** [str.isspace] on one character.  Characters are code points below 256;
    in that range CPython's [_PyUnicode_IsWhitespace] holds for
    U+0009..U+000D, U+001C..U+001F, U+0020, U+0085 and U+00A0. *)
Definition isspace (c : ascii) : bool :=
  let n := N_of_ascii c in
  ((9 <=? n) && (n <=? 13) || (28 <=? n) && (n <=? 32)
   || (n =? 133) || (n =? 160))%N.

(** [s.startswith(p)] *)
Definition startswith (s p : string) : bool := String.prefix p s.

Definition is_empty (s : string) : bool :=
  match s with EmptyString => true | String _ _ => false end.

(** [s.lstrip()] *)
Fixpoint lstrip (s : string) : string :=
  match s with
  | EmptyString => EmptyString
  | String c r => if isspace c then lstrip r else s
  end.

(** [s.rstrip()] *)
Fixpoint rstrip (s : string) : string :=
  match s with
  | EmptyString => EmptyString
  | String c r =>
      let r' := rstrip r in
      if isspace c && is_empty r' then EmptyString else String c r'
  end.

(** [s.strip()]: both ends. *)
Definition strip (s : string) : string := rstrip (lstrip s).

End PyStr.

(** ** [os.path] on POSIX ([posixpath.py]) *)

Module PosixPath.
Import PyStr.

Definition sep : ascii := "/"%char.
Definition is_sep (c : ascii) : bool := Ascii.eqb c sep.

(** [p.endswith('/')] *)
Fixpoint endswith_sep (s : string) : bool :=
  match s with
  | EmptyString => false
  | String c EmptyString => is_sep c
  | String _ r => endswith_sep r
  end.

(** [isabs(s)]: [s.startswith('/')] *)
Definition isabs (s : string) : bool := startswith s "/".

(** One iteration of the loop of [join(a, *p)]. *)
Definition join_step (path b : string) : string :=
  if startswith b "/" || is_empty path then b
  else if endswith_sep path then path ++ b
  else path ++ "/" ++ b.

Definition join (a : string) (p : list string) : string :=
  fold_left join_step p a.

(** [p[:p.rfind('/') + 1]] *)
Fixpoint upto_last_sep (p : string) : string :=
  match p with
  | EmptyString => EmptyString
  | String c r =>
      let h := upto_last_sep r in
      if negb (is_empty h) then String c h
      else if is_sep c then String c EmptyString
      else EmptyString
  end.

(** [head == '/' * len(head)] *)
Fixpoint all_sep (s : string) : bool :=
  match s with
  | EmptyString => true
  | String c r => is_sep c && all_sep r
  end.

(** [head.rstrip('/')] *)
Fixpoint rstrip_sep (s : string) : string :=
  match s with
  | EmptyString => EmptyString
  | String c r =>
      let r' := rstrip_sep r in
      if is_sep c && is_empty r' then EmptyString else String c r'
  end.

Definition dirname (p : string) : string :=
  let head := upto_last_sep p in
  if negb (is_empty head) && negb (all_sep head) then rstrip_sep head
  else head.

(** [path.split('/')] *)
Fixpoint split_sep (s : string) : list string :=
  match s with
  | EmptyString => [EmptyString]
  | String c r =>
      if is_sep c then EmptyString :: split_sep r
      else match split_sep r with
           | h :: t => String c h :: t
           | [] => [String c EmptyString]
           end
  end.

(** The body of the [for comp in comps] loop of [normpath]. *)
Definition normpath_step (initial_slashes : nat) (new_comps : list string)
    (comp : string) : list string :=
  if String.eqb comp "" || String.eqb comp "." then new_comps
  else if negb (String.eqb comp "..")
          || (Nat.eqb initial_slashes 0 && bool_decide (new_comps = []))
          || (negb (bool_decide (new_comps = []))
              && String.eqb (List.last new_comps "") "..")
       then new_comps ++ [comp]
       else List.removelast new_comps.

Fixpoint repeat_sep (n : nat) : string :=
  match n with O => EmptyString | S k => String sep (repeat_sep k) end.

Definition normpath (path : string) : string :=
  if is_empty path then "."
  else
    let initial_slashes :=
      if startswith path "/" then
        if startswith path "//" && negb (startswith path "///") then 2%nat
        else 1%nat
      else 0%nat in
    let comps := fold_left (normpath_step initial_slashes) (split_sep path) [] in
    let path' := repeat_sep initial_slashes ++ String.concat "/" comps in
    if is_empty path' then "." else path'.

(** [abspath(path)] with the process's working directory made explicit. *)
Definition abspath (cwd path : string) : string :=
  normpath (if isabs path then path else join cwd [path]).

End PosixPath.

(** ** Pillow images *)

Module Imaging.

Local Open Scope Z_scope.

(** One RGBA pixel: four 8-bit channels. *)
Record pixel := RGBA { red : Z; green : Z; blue : Z; alpha : Z }.

(** The fill value of a transform: transparent black. *)
Definition zero_pixel : pixel := RGBA 0 0 0 0.

(** An image in mode RGBA: its size and its rows of pixels, as in the
    [xsize], [ysize] and [image] fields of Pillow's [ImagingMemoryInstance]. *)
Record image := Image { xsize : Z; ysize : Z; rows : list (list pixel) }.

(** Every row is present and has [xsize] pixels. *)
Definition wf_image (im : image) : Prop :=
  0 <= xsize im /\ 0 <= ysize im /\
  length (rows im) = Z.to_nat (ysize im) /\
  Forall (fun r => length r = Z.to_nat (xsize im)) (rows im).

(** [im.getpixel((x, y))]; [None] stands for the [IndexError] outside the
    image. *)
Definition getpixel (im : image) (x y : Z) : option pixel :=
  if (0 <=? x) && (x <? xsize im) && (0 <=? y) && (y <? ysize im)
  then rows im !! Z.to_nat y ≫= fun r => r !! Z.to_nat x
  else None.

(** The source coordinate [ImagingScaleAffine] tabulates for output
    coordinate [x]: it starts from [a * 0.5] with [a = src / dst] and adds
    [a] per output pixel, so it truncates [(x + 0.5) * src / dst], the
    position of the centre of the output pixel.  For [dst = 1024] every
    value of that accumulation is a multiple of [2^-11] below [2^42] and
    the double arithmetic is exact. *)
Definition scale_coord (src dst x : Z) : Z :=
  ((2 * x + 1) * src) / (2 * dst).

(** [im.resize(size, Image.NEAREST)]: output pixels whose source coordinate
    falls outside the source keep the fill value. *)
Definition resize (im : image) (size : Z * Z) : image :=
  let '(w, h) := size in
  {| xsize := w;
     ysize := h;
     rows :=
       (fun y =>
          (fun x =>
             default zero_pixel
               (getpixel im (scale_coord (xsize im) w x)
                            (scale_coord (ysize im) h y)))
          <$> seqZ 0 w)
       <$> seqZ 0 h |}.

(** The interface to Pillow's codecs: [Image.open(path).convert("RGBA")]
    on the bytes of a file ([None]: the data is not an image Pillow can
    identify) and the PNG encoder behind [save(path, "PNG")]. *)
Class Codec := {
  decode_rgba : list Byte.byte -> option image;
  encode_png : image -> list Byte.byte
}.

End Imaging.

(** ** The process and its world *)

Import PyStr PosixPath Imaging.

Abbreviation bytes := (list Byte.byte).

(** Exceptions that the library calls of the script raise. *)
Inductive exn :=
| FileExistsError
| FileNotFoundError
| NotADirectoryError
| IsADirectoryError
| URLError
| UnidentifiedImageError.

(** How a computation ends: it returns, [sys.exit(code)] raised
    [SystemExit], or another exception is in flight. *)
Inductive outcome (A : Type) :=
| Return (a : A)
| SysExit (code : Z)
| Raised (e : exn).
Arguments Return {A} a.
Arguments SysExit {A} code.
Arguments Raised {A} e.

(** The calls that reach outside the process, in the order they are made. *)
Inductive event :=
| EvTempFile (name : string)
| EvUrlRetrieve (url filename : string)
| EvIsFile (path : string)
| EvImageOpen (path : string)
| EvUnlink (path : string)
| EvMakedirs (name : string)
| EvSave (path : string).

(** What the interpreter and the operating system hold for one run. *)
Record world := World {
  sys_argv : list string;              (* sys.argv, script name first *)
  script_file : string;                (* __file__ *)
  cwd : string;                        (* os.getcwd() *)
  pillow_importable : bool;            (* does [from PIL import Image] succeed *)
  tmp_name : string;                   (* the name tempfile draws next *)
  net : string -> option bytes;        (* what a GET of a URL yields, if anything *)
  files : gmap string bytes;           (* regular files by absolute path *)
  dirs : gset string;                  (* directories *)
  stdout : string;
  stderr : string;
  trace : list event
}.

Definition set_files (f : gmap string bytes) (w : world) : world :=
  World (sys_argv w) (script_file w) (cwd w) (pillow_importable w) (tmp_name w)
        (net w) f (dirs w) (stdout w) (stderr w) (trace w).

Definition set_dirs (d : gset string) (w : world) : world :=
  World (sys_argv w) (script_file w) (cwd w) (pillow_importable w) (tmp_name w)
        (net w) (files w) d (stdout w) (stderr w) (trace w).

Definition set_stdout (s : string) (w : world) : world :=
  World (sys_argv w) (script_file w) (cwd w) (pillow_importable w) (tmp_name w)
        (net w) (files w) (dirs w) s (stderr w) (trace w).

Definition set_stderr (s : string) (w : world) : world :=
  World (sys_argv w) (script_file w) (cwd w) (pillow_importable w) (tmp_name w)
        (net w) (files w) (dirs w) (stdout w) s (trace w).

Definition log (e : event) (w : world) : world :=
  World (sys_argv w) (script_file w) (cwd w) (pillow_importable w) (tmp_name w)
        (net w) (files w) (dirs w) (stdout w) (stderr w) (trace w ++ [e]).

(** State and exceptions. *)
Definition M (A : Type) : Type := world -> outcome A * world.

Definition ret {A} (a : A) : M A := fun w => (Return a, w).

Definition bind {A B} (m : M A) (k : A -> M B) : M B :=
  fun w =>
    match m w with
    | (Return a, w') => k a w'
    | (SysExit c, w') => (SysExit c, w')
    | (Raised e, w') => (Raised e, w')
    end.

Notation "x <- m ;; k" := (bind m (fun x => k))
  (at level 100, m at next level, right associativity).
Notation "m ;; k" := (bind m (fun _ => k))
  (at level 100, right associativity).

(** [sys.exit(code)] *)
Definition sys_exit {A} (code : Z) : M A := fun w => (SysExit code, w).

(** [if cond: body] *)
Definition when (cond : bool) (body : M unit) : M unit :=
  if cond then body else ret tt.

(** [try: body finally: handler]: the handler runs however the body ends;
    what the body did stands unless the handler itself does not return. *)
Definition try_finally {A} (body : M A) (handler : M unit) : M A :=
  fun w =>
    let '(r, w1) := body w in
    match handler w1 with
    | (Return _, w2) => (r, w2)
    | (SysExit c, w2) => (SysExit c, w2)
    | (Raised e, w2) => (Raised e, w2)
    end.

Definition newline : string := String (ascii_of_nat 10) EmptyString.

(** [print(s)] and [print(s, file=sys.stderr)] *)
Definition print (s : string) : M unit :=
  fun w => (Return tt, set_stdout (stdout w ++ s ++ newline) w).

Definition print_stderr (s : string) : M unit :=
  fun w => (Return tt, set_stderr (stderr w ++ s ++ newline) w).

(** [tempfile.NamedTemporaryFile(suffix=..., delete=False)]: an empty file
    under a name that was free.  The name is the one the world holds ready;
    the suffix is part of it. *)
Definition NamedTemporaryFile (suffix : string) : M string :=
  fun w =>
    let name := tmp_name w in
    let w := log (EvTempFile name) w in
    if bool_decide (is_Some (files w !! name)) || bool_decide (name ∈ dirs w)
    then (Raised FileExistsError, w)
    else (Return name, set_files (<[name := []]> (files w)) w).

(** Leaving the [with] block closes the file; with [delete=False] the file
    stays on disk. *)
Definition close (f : string) : M unit := ret tt.

(** [with tempfile.NamedTemporaryFile(suffix=..., delete=False) as f: body] *)
Definition with_NamedTemporaryFile {A} (suffix : string) (body : string -> M A)
    : M A :=
  f <- NamedTemporaryFile suffix ;;
  try_finally (body f) (close f).

(** [urllib.request.urlretrieve(url, filename)] *)
Definition urlretrieve (url filename : string) : M unit :=
  fun w =>
    let w := log (EvUrlRetrieve url filename) w in
    match net w url with
    | None => (Raised URLError, w)
    | Some data => (Return tt, set_files (<[filename := data]> (files w)) w)
    end.

(** [Image.open(path).convert("RGBA")] *)
Definition Image_open_convert_RGBA `{Codec} (path : string) : M image :=
  fun w =>
    let w := log (EvImageOpen path) w in
    match files w !! path with
    | None =>
        (Raised (if bool_decide (path ∈ dirs w) then IsADirectoryError
                 else FileNotFoundError), w)
    | Some data =>
        match decode_rgba data with
        | None => (Raised UnidentifiedImageError, w)
        | Some im => (Return im, w)
        end
    end.

(** [os.unlink(path)] *)
Definition os_unlink (path : string) : M unit :=
  fun w =>
    let w := log (EvUnlink path) w in
    match files w !! path with
    | None => (Raised FileNotFoundError, w)
    | Some _ => (Return tt, set_files (delete path (files w)) w)
    end.

(** [os.path.abspath(p)] and [os.path.isfile(path)] *)
Definition os_path_abspath (p : string) : M string :=
  fun w => (Return (abspath (cwd w) p), w).

Definition os_path_isfile (path : string) : M bool :=
  fun w => (Return (bool_decide (is_Some (files w !! path))),
            log (EvIsFile path) w).

(** The proper prefixes of a path that end just before a separator: the
    directories above it, outermost first. *)
Fixpoint parents_from (acc s : string) : list string :=
  match s with
  | EmptyString => []
  | String c r =>
      (if is_sep c && negb (is_empty acc) then [acc] else [])
      ++ parents_from (acc ++ String c EmptyString) r
  end.

Definition parents (name : string) : list string := parents_from "" name.

(** One [mkdir] of the chain [os.makedirs(name, exist_ok=True)] walks: a
    directory that exists is left alone, a regular file in the way is an
    error, anything else is created. *)
Definition mkdir_exist_ok (in_the_way : exn) (name : string) : M unit :=
  fun w =>
    if bool_decide (name ∈ dirs w) then (Return tt, w)
    else if bool_decide (is_Some (files w !! name)) then (Raised in_the_way, w)
    else (Return tt, set_dirs ({[name]} ∪ dirs w) w).

Fixpoint mkdir_chain (names : list string) : M unit :=
  match names with
  | [] => ret tt
  | name :: rest => mkdir_exist_ok NotADirectoryError name ;; mkdir_chain rest
  end.

(** [os.makedirs(name, exist_ok=True)] *)
Definition os_makedirs (name : string) : M unit :=
  fun w =>
    (mkdir_chain (parents name) ;; mkdir_exist_ok FileExistsError name)
      (log (EvMakedirs name) w).

(** [im.save(path, "PNG")]: the file is opened for writing, which truncates
    whatever was there, and receives the encoded image. *)
Definition Image_save `{Codec} (im : image) (path : string) : M unit :=
  fun w =>
    let w := log (EvSave path) w in
    if bool_decide (path ∈ dirs w) then (Raised IsADirectoryError, w)
    else if negb (bool_decide (dirname path ∈ dirs w))
    then (Raised FileNotFoundError, w)
    else (Return tt, set_files (<[path := encode_png im]> (files w)) w).

(** [ICON_PATH], computed from [__file__] when the module is loaded. *)
Definition ICON_PATH (w : world) : string :=
  join (dirname (script_file w))
       [".."; "frontend"; "ios"; "App"; "App"; "Assets.xcassets";
        "AppIcon.appiconset"; "AppIcon-512@2x.png"].

(** ** The script

    [main], statement by statement; the numbers are the lines of
    [scripts/upscale-app-icon.py]. *)

Definition main `{Codec} : M unit :=
  fun w0 =>
  (when (negb (Nat.eqb (length (sys_argv w0)) 2))                  (* 32 *)
     (print_stderr "Usage: python3 upscale-app-icon.py <path_or_url>" ;;
      sys_exit 1) ;;
   let src := strip (nth 1 (sys_argv w0) "") in                    (* 35 *)
   img <- (if startswith src "http://" || startswith src "https://" then
             path <- with_NamedTemporaryFile ".png" (fun f =>      (* 37 *)
                       urlretrieve src f ;;
                       ret f) ;;
             try_finally (Image_open_convert_RGBA path)            (* 40 *)
                         (os_unlink path)
           else
             path <- os_path_abspath src ;;                        (* 45 *)
             isfile <- os_path_isfile path ;;
             when (negb isfile)
               (print_stderr ("Not a file: " ++ path) ;;
                sys_exit 1) ;;
             Image_open_convert_RGBA path) ;;                      (* 49 *)
   out_path <- os_path_abspath (ICON_PATH w0) ;;                   (* 50 *)
   os_makedirs (dirname out_path) ;;
   let resized := resize img (1024, 1024)%Z in
   Image_save resized out_path ;;
   print ("Saved 1024x1024 app icon to " ++ out_path)) w0.         (* 54 *)

(** The module body: the guarded import, then [main()]. *)
Definition script `{Codec} : M unit :=
  fun w =>
    if pillow_importable w then main w
    else (print_stderr "Need Pillow: pip install Pillow" ;; sys_exit 1) w.

(** The status the process exits with: 0 when the script runs to its end,
    the argument of [sys.exit], and 1 after an uncaught exception. *)
Definition exit_status {A} (o : outcome A) : Z :=
  match o with
  | Return _ => 0
  | SysExit c => c
  | Raised _ => 1
  end.

(** The destination of the icon. *)
Definition out_path (w : world) : string := abspath (cwd w) (ICON_PATH w).

(** The fixed path below the directory of the script. *)
Definition icon_relpath : string :=
  "../frontend/ios/App/App/Assets.xcassets/AppIcon.appiconset/AppIcon-512@2x.png".

(** The test of line 36 on the stripped argument. *)
Definition is_url (src : string) : bool :=
  startswith src "http://" || startswith src "https://".

(** [sys.argv] replaced, everything else as it was. *)
Definition set_argv (argv : list string) (w : world) : world :=
  World argv (script_file w) (cwd w) (pillow_importable w) (tmp_name w)
        (net w) (files w) (dirs w) (stdout w) (stderr w) (trace w).

(** The world once a download of [data] from [src] has been written to the
    temporary file, opened and unlinked. *)
Definition after_download (src : string) (data : bytes) (w : world) : world :=
  set_files
    (delete (tmp_name w)
       (<[tmp_name w := data]> (<[tmp_name w := []]> (files w))))
    (log (EvUnlink (tmp_name w))
       (log (EvImageOpen (tmp_name w))
          (log (EvUrlRetrieve src (tmp_name w))
             (log (EvTempFile (tmp_name w)) w)))).

(** A successful acquisition of [src] in world [w]: the image it yields and
    the calls it makes. *)
Inductive acquired `{Codec} (w : world) (src : string) (img : image)
    : list event -> Prop :=
| acquired_url (data : bytes) :
    is_url src = true ->
    files w !! tmp_name w = None -> tmp_name w ∉ dirs w ->
    net w src = Some data ->
    decode_rgba data = Some img ->
    acquired w src img
      [EvTempFile (tmp_name w); EvUrlRetrieve src (tmp_name w);
       EvImageOpen (tmp_name w); EvUnlink (tmp_name w)]
| acquired_local (data : bytes) :
    is_url src = false ->
    files w !! abspath (cwd w) src = Some data ->
    decode_rgba data = Some img ->
    acquired w src img
      [EvIsFile (abspath (cwd w) src); EvImageOpen (abspath (cwd w) src)].

(** Calls that only the download makes, and the call that only the local
    branch makes. *)
Definition is_download_event (e : event) : bool :=
  match e with
  | EvTempFile _ | EvUrlRetrieve _ _ | EvUnlink _ => true
  | _ => false
  end.

Definition is_local_event (e : event) : bool :=
  match e with
  | EvIsFile _ => true
  | _ => false
  end.

(** A computation that neither reads nor writes [sys.argv]: it runs the
    same way whatever the arguments are. *)
Definition argv_blind {A} (m : M A) : Prop :=
  forall argv w, m (set_argv argv w) = ((m w).1, set_argv argv (m w).2).

(** ** Sample data for the examples *)

Module Samples.

Local Open Scope Z_scope.

(** An image whose pixel at [(x, y)] carries its own coordinates. *)
Definition coordinates (w h : Z) : image :=
  Image w h ((fun y => (fun x => RGBA x y 0 255) <$> seqZ 0 w) <$> seqZ 0 h).

(** An image of one colour. *)
Definition solid (w h : Z) (c : pixel) : image :=
  Image w h ((fun _ => (fun _ => c) <$> seqZ 0 w) <$> seqZ 0 h).

Definition byte_of_Z (z : Z) : Byte.byte :=
  default Byte.x00 (Byte.of_N (Z.to_N (z mod 256))).

Definition Z_of_byte (b : Byte.byte) : Z := Z.of_N (Byte.to_N b).

(** A stand-in codec: a file is a single row of pixels, four bytes each;
    the encoder writes the rows one after the other. *)
Fixpoint pixels_of_bytes (fuel : nat) (bs : bytes) : option (list pixel) :=
  match fuel, bs with
  | _, [] => Some []
  | S k, r :: g :: b :: a :: rest =>
      cons (RGBA (Z_of_byte r) (Z_of_byte g) (Z_of_byte b) (Z_of_byte a))
        <$> pixels_of_bytes k rest
  | _, _ => None
  end.

Definition bytes_of_pixel (p : pixel) : bytes :=
  [byte_of_Z (red p); byte_of_Z (green p); byte_of_Z (blue p);
   byte_of_Z (alpha p)].

#[export] Instance row_codec : Codec := {|
  decode_rgba bs :=
    match bs with
    | [] => None
    | _ => (fun ps => Image (Z.of_nat (length ps)) 1 [ps])
             <$> pixels_of_bytes (length bs) bs
    end;
  encode_png im := mjoin ((fun r => mjoin (bytes_of_pixel <$> r)) <$> rows im)
|}.

Definition script_name : string := "/repo/scripts/upscale-app-icon.py".
Definition icon_url : string := "https://example.com/icon.png".

(** Two pixels, red then blue. *)
Definition two_pixels : bytes :=
  [Byte.xff; Byte.x00; Byte.x00; Byte.xff;
   Byte.x00; Byte.x00; Byte.xff; Byte.xff].

(** What [two_pixels] decodes to. *)
Definition two_pixel_image : image :=
  Image 2 1 [[RGBA 255 0 0 255; RGBA 0 0 255 255]].

Definition old_icon : bytes := [Byte.x01; Byte.x02; Byte.x03; Byte.x04].

Definition icon_file : string :=
  "/repo/frontend/ios/App/App/Assets.xcassets/AppIcon.appiconset/AppIcon-512@2x.png".

(** A machine with a checkout in [/repo], an image in the working
    directory, an icon already in place and one reachable URL. *)
Definition machine (argv : list string) : world :=
  {| sys_argv := argv;
     script_file := script_name;
     cwd := "/home/dev";
     pillow_importable := true;
     tmp_name := "/tmp/tmpk3x9q2.png";
     net := fun url => if String.eqb url icon_url then Some two_pixels else None;
     files := <["/home/dev/icon.png" := two_pixels]>
                (<["/home/dev/notes.txt" := [Byte.x68; Byte.x69; Byte.x0a]]>
                   (<[icon_file := old_icon]> ∅));
     dirs := list_to_set
               ["/"; "/tmp"; "/home"; "/home/dev"; "/repo"; "/repo/scripts";
                "/repo/frontend"; "/repo/frontend/ios";
                "/repo/frontend/ios/App"; "/repo/frontend/ios/App/App";
                "/repo/frontend/ios/App/App/Assets.xcassets";
                "/repo/frontend/ios/App/App/Assets.xcassets/AppIcon.appiconset"]%string;
     stdout := "";
     stderr := "";
     trace := [] |}.

Definition run_local : world := machine [script_name; "icon.png"]%string.
Definition padded_url : string := " https://example.com/icon.png  ".
Definition run_url_spaces : world := machine [script_name; padded_url].
Definition run_no_argument : world := machine [script_name].
Definition run_missing : world := machine [script_name; "missing.png"]%string.
Definition unreachable_url : string := "http://unreachable.invalid/icon.png".
Definition run_unreachable : world := machine [script_name; unreachable_url].

(** The same machine right after the checkout: no icon yet, and none of
    the directories of the asset catalogue. *)
Definition fresh_checkout : world :=
  let w := machine [script_name; "icon.png"]%string in
  set_dirs (list_to_set ["/"; "/tmp"; "/home"; "/home/dev"; "/repo";
                         "/repo/scripts"]%string)
    (set_files (delete icon_file (files w)) w).

End Samples.

(** What a run is given and does not change: the arguments, the place of
    the script, the working directory, the installed imaging library, the
    name of the temporary file and the network. *)
Definition same_env (w1 w2 : world) : Prop :=
  sys_argv w1 = sys_argv w2 /\ script_file w1 = script_file w2 /\
  cwd w1 = cwd w2 /\ pillow_importable w1 = pillow_importable w2 /\
  tmp_name w1 = tmp_name w2 /\ net w1 = net w2.

(** A computation that leaves those alone. *)
Definition keeps_env {A} (m : M A) : Prop := forall w, same_env w (m w).2.

(** The file name of the icon and the directory of the asset catalogue it
    goes to, below the parent of the directory of the script. *)
Definition icon_dir_tail : string :=
  "frontend/ios/App/App/Assets.xcassets/AppIcon.appiconset".

Definition icon_tail : string :=
  "frontend/ios/App/App/Assets.xcassets/AppIcon.appiconset/AppIcon-512@2x.png".

(** [s] is white space only. *)
Fixpoint all_space (s : string) : bool :=
  match s with
  | EmptyString => true
  | String c r => isspace c && all_space r
  end.

(** The calls that write below the destination. *)
Definition is_output_event (e : event) : bool :=
  match e with
  | EvMakedirs _ | EvSave _ => true
  | _ => false
  end.

Module MoreSamples.
Import Samples.

(** The sample machine without Pillow. *)
Definition without_pillow (argv : list string) : world :=
let w := machine argv in
World (sys_argv w) (script_file w) (cwd w) false (tmp_name w) (net w)
      (files w) (dirs w) (stdout w) (stderr w) (trace w).

(** A URL that answers with something that is no image. *)
Definition page_url : string := "https://example.com/index.html".

Definition serves_a_page (argv : list string) : world :=
let w := machine argv in
World (sys_argv w) (script_file w) (cwd w) true (tmp_name w)
      (fun url => if String.eqb url page_url
                  then Some [Byte.x3c; Byte.x68; Byte.x31]
                  else net w url)
      (files w) (dirs w) (stdout w) (stderr w) (trace w).

End MoreSamples.

(** * Properties *)

(** ** Stripping *)

Section Strip.

Lemma rstrip_idempotent (s : string) : rstrip (rstrip s) = rstrip s.
Proof.
  induction s as [|c s IH]; [reflexivity|].
  cbn [rstrip].
  destruct (isspace c && is_empty (rstrip s)) eqn:E; [reflexivity|].
  cbn [rstrip]. rewrite IH, E. reflexivity.
Qed.

(** What [lstrip] leaves does not start with white space. *)
Lemma lstrip_head (s : string) :
  lstrip s = EmptyString \/
  exists c r, lstrip s = String c r /\ isspace c = false.
Proof.
  induction s as [|c s IH]; [now left|].
  cbn [lstrip]. destruct (isspace c) eqn:E; [exact IH|].
  right. eauto.
Qed.

Lemma strip_idempotent (s : string) : strip (strip s) = strip s.
Proof.
  unfold strip.
  destruct (lstrip_head s) as [->|(c & r & -> & Hc)]; [reflexivity|].
  cbn [rstrip]. rewrite Hc. cbn [andb lstrip]. rewrite Hc.
  change (rstrip (String c (rstrip r)) = String c (rstrip r)).
  cbn [rstrip]. rewrite Hc, rstrip_idempotent. reflexivity.
Qed.

End Strip.

(** ** Nearest neighbour scaling *)

Section Scaling.
Local Open Scope Z_scope.

Lemma scale_coord_range (src dst x : Z) :
  0 < src -> 0 < dst -> 0 <= x < dst ->
  0 <= scale_coord src dst x < src.
Proof.
  intros Hs Hd Hx. unfold scale_coord. split.
  - apply Z.div_pos; nia.
  - apply Z.div_lt_upper_bound; nia.
Qed.

(** Reading a pixel of an image given by a table of its pixels. *)
Lemma getpixel_tabulate (f : Z -> Z -> pixel) (w h x y : Z) :
  0 <= x < w -> 0 <= y < h ->
  getpixel (Image w h ((fun y => (fun x => f x y) <$> seqZ 0 w) <$> seqZ 0 h))
    x y = Some (f x y).
Proof.
  intros Hx Hy. unfold getpixel. cbn [xsize ysize rows].
  replace (0 <=? x) with true by (symmetry; apply Z.leb_le; lia).
  replace (x <? w) with true by (symmetry; apply Z.ltb_lt; lia).
  replace (0 <=? y) with true by (symmetry; apply Z.leb_le; lia).
  replace (y <? h) with true by (symmetry; apply Z.ltb_lt; lia).
  cbn [andb]. rewrite list_lookup_fmap.
  rewrite (lookup_seqZ_lt 0 h (Z.to_nat y)) by lia.
  cbn [fmap option_fmap option_map mbind option_bind].
  rewrite list_lookup_fmap.
  rewrite (lookup_seqZ_lt 0 w (Z.to_nat x)) by lia.
  cbn [fmap option_fmap option_map].
  rewrite !Z.add_0_l, !Z2Nat.id by lia. reflexivity.
Qed.

(** Reading a pixel of the result is reading the tabulated source pixel. *)
Lemma getpixel_resize (im : image) (w h x y : Z) :
  0 <= x < w -> 0 <= y < h ->
  getpixel (resize im (w, h)) x y =
  Some (default zero_pixel
          (getpixel im (scale_coord (xsize im) w x)
                       (scale_coord (ysize im) h y))).
Proof.
  intros Hx Hy.
  exact (getpixel_tabulate
           (fun x y => default zero_pixel
                         (getpixel im (scale_coord (xsize im) w x)
                                      (scale_coord (ysize im) h y)))
           w h x y Hx Hy).
Qed.

Lemma tabulate_wf (f : Z -> Z -> pixel) (w h : Z) :
  0 <= w -> 0 <= h ->
  wf_image (Image w h ((fun y => (fun x => f x y) <$> seqZ 0 w) <$> seqZ 0 h)).
Proof.
  intros Hw Hh. unfold wf_image. cbn [xsize ysize rows].
  repeat split; try lia.
  - rewrite length_fmap, length_seqZ. reflexivity.
  - apply Forall_fmap, Forall_forall. intros y _. cbn.
    rewrite length_fmap, length_seqZ. reflexivity.
Qed.

(** A well-formed image has a pixel at every coordinate of its size. *)
Lemma getpixel_is_Some (im : image) (x y : Z) :
  wf_image im -> 0 <= x < xsize im -> 0 <= y < ysize im ->
  is_Some (getpixel im x y).
Proof.
  intros (_ & _ & Hrows & Hrow) Hx Hy. unfold getpixel.
  replace (0 <=? x) with true by (symmetry; apply Z.leb_le; lia).
  replace (x <? xsize im) with true by (symmetry; apply Z.ltb_lt; lia).
  replace (0 <=? y) with true by (symmetry; apply Z.leb_le; lia).
  replace (y <? ysize im) with true by (symmetry; apply Z.ltb_lt; lia).
  cbn [andb].
  destruct (lookup_lt_is_Some_2 (rows im) (Z.to_nat y)) as [r Hr]; [lia|].
  rewrite Hr. cbn [mbind option_bind].
  apply lookup_lt_is_Some_2.
  rewrite Forall_forall in Hrow.
  rewrite (Hrow r) by (apply list_elem_of_lookup; eauto).
  lia.
Qed.


(** Sampling at pixel centres and sampling at pixel corners agree when the
    source size divides the target size. *)
Lemma scale_coord_divides (src dst x : Z) :
  0 < src -> (src | dst) -> 0 < dst -> 0 <= x ->
  scale_coord src dst x = x * src / dst.
Proof.
  intros Hs [m ->] Hd Hx. unfold scale_coord.
  assert (Hm : 0 < m) by nia.
  replace (2 * (m * src)) with (src * (2 * m)) by ring.
  replace ((2 * x + 1) * src) with (src * (2 * x + 1)) by ring.
  rewrite Z.div_mul_cancel_l by lia.
  replace (m * src) with (src * m) by ring.
  replace (x * src) with (src * x) by ring.
  rewrite Z.div_mul_cancel_l by lia.
  symmetry. apply Z.div_unique with (r := 2 * (x mod m) + 1).
  - left. pose proof (Z.mod_pos_bound x m Hm). lia.
  - pose proof (Z.div_mod x m ltac:(lia)). lia.
Qed.

End Scaling.

(** ** Paths *)

Section Paths.

Lemma string_app_assoc (a b c : string) : (a ++ b) ++ c = a ++ (b ++ c).
Proof.
  induction a as [|x a IH]; [reflexivity|].
  change (String x ((a ++ b) ++ c) = String x (a ++ (b ++ c))).
  now rewrite IH.
Qed.

Lemma is_empty_app (a b : string) :
  is_empty b = false -> is_empty (a ++ b) = false.
Proof. destruct a; [exact id | reflexivity]. Qed.

Lemma endswith_sep_app (a b : string) :
  is_empty b = false -> endswith_sep (a ++ b) = endswith_sep b.
Proof.
  intros Hb. induction a as [|x a IH]; [reflexivity|].
  change (String x a ++ b) with (String x (a ++ b)).
  cbn [endswith_sep]. rewrite IH.
  destruct (a ++ b) eqn:E; [|reflexivity].
  destruct a as [|y a'].
  - change (b = "") in E. rewrite E in Hb. discriminate.
  - change (String y (a' ++ b) = "") in E. discriminate.
Qed.

(** Joining one more relative component onto a path that ends in a
    component. *)
Lemma join_step_app (a b c : string) :
  is_empty b = false -> endswith_sep b = false -> startswith c "/" = false ->
  join_step (a ++ b) c = a ++ (b ++ "/" ++ c).
Proof.
  intros Hb He Hc. unfold join_step.
  rewrite Hc, is_empty_app, endswith_sep_app, He by assumption.
  cbn [orb]. now rewrite string_app_assoc.
Qed.

(** The eight joined components spell the relative path of the icon. *)
Lemma join_icon_components (d : string) :
  join d [".."; "frontend"; "ios"; "App"; "App"; "Assets.xcassets";
          "AppIcon.appiconset"; "AppIcon-512@2x.png"]
  = join d [icon_relpath].
Proof.
  unfold join. cbn [fold_left].
  assert (Hfirst : exists p, join_step d ".." = p ++ ".." /\
                             join_step d icon_relpath = p ++ icon_relpath).
  { unfold join_step. cbn [startswith String.prefix orb].
    change (startswith icon_relpath "/") with false. cbn [orb].
    destruct (is_empty d).
    - now exists "".
    - destruct (endswith_sep d).
      + now exists d.
      + exists (d ++ "/"). now rewrite !string_app_assoc. }
  destruct Hfirst as (p & -> & ->).
  repeat rewrite join_step_app by reflexivity.
  reflexivity.
Qed.

Lemma isabs_inv (s : string) : isabs s = true -> exists r, s = String sep r.
Proof.
  unfold isabs, startswith. intros H.
  destruct s as [|c r]; [discriminate|]. cbn [String.prefix] in H.
  destruct (ascii_dec "/" c) as [<-|]; [eauto | discriminate].
Qed.

Lemma isabs_cons (r : string) : isabs (String sep r) = true.
Proof. unfold isabs, startswith. cbn. now destruct r. Qed.



Lemma join_isabs (d b : string) : isabs d = true -> isabs (join d [b]) = true.
Proof.
  intros Hd. destruct (isabs_inv d Hd) as [r ->].
  unfold join, join_step. cbn [fold_left is_empty orb].
  destruct (startswith b "/") eqn:Hb; cbn [orb]; [exact Hb|].
  destruct (endswith_sep _); apply isabs_cons.
Qed.



End Paths.

(** ** The file system calls *)

Section FileSystem.

Lemma set_dirs_id (w : world) : set_dirs (dirs w) w = w.
Proof. now destruct w. Qed.

Lemma mkdir_exist_ok_spec (e : exn) (name : string) (w : world) :
  exists d,
    (mkdir_exist_ok e name w).2 = set_dirs d w /\ dirs w ⊆ d /\
    ((mkdir_exist_ok e name w).1 = Return tt -> name ∈ d) /\
    (forall c, (mkdir_exist_ok e name w).1 <> SysExit c).
Proof.
  unfold mkdir_exist_ok.
  destruct (bool_decide (name ∈ dirs w)) eqn:Hd.
  - exists (dirs w). rewrite set_dirs_id. apply bool_decide_eq_true in Hd.
    cbn. repeat split; auto; discriminate.
  - destruct (bool_decide (is_Some (files w !! name))).
    + exists (dirs w). rewrite set_dirs_id. cbn.
      repeat split; auto; discriminate.
    + exists ({[name]} ∪ dirs w). cbn.
      repeat split; try discriminate; set_solver.
Qed.

Lemma mkdir_chain_spec (names : list string) (w : world) :
  exists d,
    (mkdir_chain names w).2 = set_dirs d w /\ dirs w ⊆ d /\
    ((mkdir_chain names w).1 = Return tt -> forall p, p ∈ names -> p ∈ d) /\
    (forall c, (mkdir_chain names w).1 <> SysExit c).
Proof.
  revert w. induction names as [|n names IH]; intros w.
  - exists (dirs w). rewrite set_dirs_id. cbn.
    repeat split; auto; try discriminate. intros _ p Hp. inversion Hp.
  - cbn [mkdir_chain]. unfold bind.
    destruct (mkdir_exist_ok_spec NotADirectoryError n w)
      as (d1 & Hw1 & Hsub1 & Hin1 & Hex1).
    destruct (mkdir_exist_ok NotADirectoryError n w) as [[[]|c|e] w1];
      cbn [fst snd] in *; subst w1.
    + destruct (IH (set_dirs d1 w)) as (d2 & Hw2 & Hsub2 & Hin2 & Hex2).
      cbn [dirs set_dirs] in Hsub2.
      exists d2. rewrite Hw2. repeat split; auto.
      * set_solver.
      * intros Hr p Hp. apply elem_of_cons in Hp as [->|Hp].
        -- specialize (Hin1 eq_refl). set_solver.
        -- now apply Hin2.
    + now destruct (Hex1 c).
    + exists d1. repeat split; auto; discriminate.
Qed.

(** [os.makedirs(name, exist_ok=True)] touches nothing but the set of
    directories, never removes one, and when it returns, [name] and every
    directory above it exist. *)
Lemma os_makedirs_spec (name : string) (w : world) :
  exists d,
    (os_makedirs name w).2 = set_dirs d (log (EvMakedirs name) w) /\
    dirs w ⊆ d /\
    ((os_makedirs name w).1 = Return tt ->
     name ∈ d /\ forall p, p ∈ parents name -> p ∈ d) /\
    (forall c, (os_makedirs name w).1 <> SysExit c).
Proof.
  unfold os_makedirs, bind. set (w0 := log (EvMakedirs name) w).
  destruct (mkdir_chain_spec (parents name) w0)
    as (d1 & Hw1 & Hsub1 & Hin1 & Hex1).
  destruct (mkdir_chain (parents name) w0) as [[[]|c|e] w1];
    cbn [fst snd] in *; subst w1.
  - destruct (mkdir_exist_ok_spec FileExistsError name (set_dirs d1 w0))
      as (d2 & Hw2 & Hsub2 & Hin2 & Hex2).
    cbn [dirs set_dirs] in Hsub2.
    exists d2. rewrite Hw2. repeat split; auto.
    all: try (subst w0; cbn [dirs log] in Hsub1; set_solver).
    all: intros p Hp; specialize (Hin1 eq_refl p Hp); set_solver.
  - now destruct (Hex1 c).
  - exists d1. repeat split; auto; discriminate.
Qed.

End FileSystem.

(** ** Running [main] *)

(** Symbolic execution: unfold the monad and the calls, project the fields
    of the worlds that result. *)
Ltac run :=
  repeat progress
    (unfold bind, ret, when, sys_exit, print, print_stderr,
       with_NamedTemporaryFile, try_finally, NamedTemporaryFile, close,
       urlretrieve, Image_open_convert_RGBA, os_unlink, os_path_abspath,
       os_path_isfile, Image_save;
     cbn [set_files set_dirs set_stdout set_stderr set_argv log
          sys_argv script_file cwd pillow_importable tmp_name net files dirs
          stdout stderr trace fst snd length Nat.eqb negb nth orb andb]).

Ltac fields :=
  repeat progress
    cbn [set_files set_dirs set_stdout set_stderr set_argv log
         sys_argv script_file cwd pillow_importable tmp_name net files dirs
         stdout stderr trace fst snd negb] in *.

Section Main.
Context `{Codec}.

Local Opaque resize abspath strip dirname ICON_PATH os_makedirs startswith
  String.append parents.

(** Lines 50 to 54 of [main], once the image is there. *)
Local Abbreviation save_icon icon img :=
  (out_path0 <- os_path_abspath icon ;;
   os_makedirs (dirname out_path0) ;;
   Image_save (resize img (1024, 1024)%Z) out_path0 ;;
   print ("Saved 1024x1024 app icon to " ++ out_path0)).

(** What the last five lines do, in every case. *)
Lemma save_icon_spec (icon : string) (img : image) (w1 : world) :
  let out := abspath (cwd w1) icon in
  let d := dirname out in
  let r := save_icon icon img w1 in
  stderr r.2 = stderr w1 /\ dirs w1 ⊆ dirs r.2 /\
  (forall c, r.1 <> SysExit c) /\
  ((r.1 = Return tt /\
    files r.2 = <[out := encode_png (resize img (1024, 1024)%Z)]> (files w1) /\
    stdout r.2 = stdout w1 ++ ("Saved 1024x1024 app icon to " ++ out) ++ newline /\
    trace r.2 = (trace w1 ++ [EvMakedirs d; EvSave out])%list /\
    d ∈ dirs r.2 /\ (forall p, p ∈ parents d -> p ∈ dirs r.2) /\
    out ∉ dirs r.2)
   \/
   ((exists e, r.1 = Raised e) /\
    files r.2 = files w1 /\ stdout r.2 = stdout w1 /\
    exists evs, trace r.2 = (trace w1 ++ EvMakedirs d :: evs)%list /\
                evs ⊆ [EvSave out])).
Proof.
  intros out d r. subst r. run. fold out. fold d.
  destruct (os_makedirs_spec d w1) as (ds & Hw2 & Hsub & Hin & Hex).
  destruct (os_makedirs d w1) as [[[]|c|e] w2]; cbn [fst snd] in *; subst w2;
    fields.
  - destruct (Hin eq_refl) as [Hd Hpar].
    destruct (bool_decide (out ∈ ds)) eqn:Hout;
      [|rewrite (bool_decide_eq_true_2 (d ∈ ds)) by assumption];
      fields.
    + repeat split; try done. right. repeat split; eauto.
      exists [EvSave out]. rewrite <- app_assoc. done.
    + apply bool_decide_eq_false in Hout.
      repeat split; try done. left. repeat split; try done.
      now rewrite <- app_assoc.
  - now destruct (Hex c).
  - repeat split; try done. right. repeat split; eauto.
    exists []. split; [done | set_solver].
Qed.

(** The last five lines return when the directories can be made and the
    destination is not a directory. *)
Lemma save_icon_returns (icon : string) (img : image) (w1 : world) :
  (os_makedirs (dirname (abspath (cwd w1) icon)) w1).1 = Return tt ->
  abspath (cwd w1) icon ∉
    dirs (os_makedirs (dirname (abspath (cwd w1) icon)) w1).2 ->
  (save_icon icon img w1).1 = Return tt.
Proof.
  intros Hmk Hnd. run.
  destruct (os_makedirs_spec (dirname (abspath (cwd w1) icon)) w1)
    as (ds & Hw2 & _ & Hin & _).
  destruct (os_makedirs _ w1) as [[[]|c|e] w2]; cbn [fst snd] in *;
    try discriminate.
  subst w2. fields. destruct (Hin eq_refl) as [Hd _].
  rewrite (bool_decide_eq_false_2 _ Hnd), (bool_decide_eq_true_2 _ Hd).
  reflexivity.
Qed.

(** *** One lemma per way through [main] *)

Lemma main_usage (w : world) :
  length (sys_argv w) <> 2%nat ->
  main w =
  (SysExit 1,
   set_stderr
     (stderr w ++ "Usage: python3 upscale-app-icon.py <path_or_url>" ++ newline)
     w).
Proof.
  intros Hlen. unfold main.
  destruct (Nat.eqb_spec (length (sys_argv w)) 2) as [|_]; [done|].
  run. reflexivity.
Qed.

Section OneArgument.
Variables (w : world) (prog arg : string).
Hypothesis Hargv : sys_argv w = [prog; arg].

Ltac start := unfold main; rewrite Hargv; run.

Lemma main_local_not_a_file :
  is_url (strip arg) = false ->
  files w !! abspath (cwd w) (strip arg) = None ->
  main w =
  (SysExit 1,
   set_stderr
     (stderr w ++ ("Not a file: " ++ abspath (cwd w) (strip arg)) ++ newline)
     (log (EvIsFile (abspath (cwd w) (strip arg))) w)).
Proof.
  unfold is_url. intros Hurl Hfile. start.
  rewrite Hurl, Hfile. rewrite bool_decide_eq_false_2 by (intros [? ?]; done).
  reflexivity.
Qed.

Lemma main_local_undecodable (data : bytes) :
  is_url (strip arg) = false ->
  files w !! abspath (cwd w) (strip arg) = Some data ->
  decode_rgba data = None ->
  main w =
  (Raised UnidentifiedImageError,
   log (EvImageOpen (abspath (cwd w) (strip arg)))
     (log (EvIsFile (abspath (cwd w) (strip arg))) w)).
Proof.
  unfold is_url. intros Hurl Hfile Hdec. start.
  rewrite Hurl, Hfile. rewrite bool_decide_eq_true_2 by eauto.
  run. rewrite Hfile, Hdec. reflexivity.
Qed.

Lemma main_local_decoded (data : bytes) (img : image) :
  is_url (strip arg) = false ->
  files w !! abspath (cwd w) (strip arg) = Some data ->
  decode_rgba data = Some img ->
  main w =
  save_icon (ICON_PATH w) img
    (log (EvImageOpen (abspath (cwd w) (strip arg)))
       (log (EvIsFile (abspath (cwd w) (strip arg))) w)).
Proof.
  unfold is_url. intros Hurl Hfile Hdec. start.
  rewrite Hurl, Hfile. rewrite bool_decide_eq_true_2 by eauto.
  run. rewrite Hfile, Hdec. reflexivity.
Qed.

Lemma main_url_tmp_taken :
  is_url (strip arg) = true ->
  is_Some (files w !! tmp_name w) \/ tmp_name w ∈ dirs w ->
  main w = (Raised FileExistsError, log (EvTempFile (tmp_name w)) w).
Proof.
  unfold is_url. intros Hurl Htaken. start. rewrite Hurl.
  destruct Htaken as [Hf|Hd].
  - rewrite (bool_decide_eq_true_2 _ Hf). reflexivity.
  - rewrite (bool_decide_eq_true_2 _ Hd), orb_true_r. reflexivity.
Qed.

Ltac tmp_free Hf Hd :=
  rewrite (bool_decide_eq_false_2 (is_Some _))
    by (rewrite Hf; intros [? ?]; done);
  rewrite (bool_decide_eq_false_2 _ Hd); run.

Lemma main_url_fetch_fails :
  is_url (strip arg) = true ->
  files w !! tmp_name w = None -> tmp_name w ∉ dirs w ->
  net w (strip arg) = None ->
  main w =
  (Raised URLError,
   log (EvUrlRetrieve (strip arg) (tmp_name w))
     (set_files (<[tmp_name w := []]> (files w))
        (log (EvTempFile (tmp_name w)) w))).
Proof.
  unfold is_url. intros Hurl Hf Hd Hnet. start. rewrite Hurl.
  tmp_free Hf Hd. rewrite Hnet. reflexivity.
Qed.

(** After a download that went through, whether the data decodes or
    not, the temporary file has been opened and unlinked. *)
Lemma main_url_fetched (data : bytes) :
  is_url (strip arg) = true ->
  files w !! tmp_name w = None -> tmp_name w ∉ dirs w ->
  net w (strip arg) = Some data ->
  main w =
    match decode_rgba data with
    | Some img => save_icon (ICON_PATH w) img (after_download (strip arg) data w)
    | None => (Raised UnidentifiedImageError, after_download (strip arg) data w)
    end.
Proof.
  unfold is_url. intros Hurl Hf Hd Hnet.
  start. rewrite Hurl. tmp_free Hf Hd. rewrite Hnet. run.
  rewrite !lookup_insert_eq.
  destruct (decode_rgba data); run; rewrite ?lookup_insert_eq; run;
    reflexivity.
Qed.

(** The download leaves the files as they were. *)
Lemma after_download_files (data : bytes) :
  files w !! tmp_name w = None ->
  files (after_download (strip arg) data w) = files w.
Proof.
  intros Hf. unfold after_download. fields.
  rewrite !delete_insert_eq. now apply delete_id.
Qed.

Lemma after_download_trace (data : bytes) :
  trace (after_download (strip arg) data w) =
  (trace w ++ [EvTempFile (tmp_name w);
               EvUrlRetrieve (strip arg) (tmp_name w);
               EvImageOpen (tmp_name w);
               EvUnlink (tmp_name w)])%list.
Proof. unfold after_download. fields. now rewrite <- !app_assoc. Qed.

End OneArgument.

(** *** Successful runs *)

(** A run that returns took one argument, acquired an image, and left
    the world as it found it except for the icon, the directories above
    it and one line on standard output. *)
Lemma main_returns_inv (w : world) :
  (main w).1 = Return tt ->
  exists prog arg img evs,
    sys_argv w = [prog; arg] /\
    acquired w (strip arg) img evs /\
    files (main w).2 =
      <[out_path w := encode_png (resize img (1024, 1024)%Z)]> (files w) /\
    stdout (main w).2 =
      stdout w ++ ("Saved 1024x1024 app icon to " ++ out_path w) ++ newline /\
    stderr (main w).2 = stderr w /\
    trace (main w).2 =
      (trace w ++ evs ++
       [EvMakedirs (dirname (out_path w)); EvSave (out_path w)])%list /\
    dirs w ⊆ dirs (main w).2 /\
    dirname (out_path w) ∈ dirs (main w).2 /\
    (forall p, p ∈ parents (dirname (out_path w)) -> p ∈ dirs (main w).2) /\
    out_path w ∉ dirs (main w).2.
Proof.
  intros Hret.
  destruct (decide (length (sys_argv w) = 2%nat)) as [Hlen|Hlen];
    [|rewrite (main_usage w Hlen) in Hret; discriminate].
  destruct (sys_argv w) as [|prog [|arg [|? ?]]] eqn:Hargv; try discriminate.
  clear Hlen. exists prog, arg.
  destruct (is_url (strip arg)) eqn:Hurl.
  - destruct (files w !! tmp_name w) as [old|] eqn:Hf;
      [rewrite (main_url_tmp_taken w prog arg Hargv Hurl) in Hret by eauto;
       discriminate|].
    destruct (decide (tmp_name w ∈ dirs w)) as [Hd|Hd];
      [rewrite (main_url_tmp_taken w prog arg Hargv Hurl) in Hret by eauto;
       discriminate|].
    destruct (net w (strip arg)) as [data|] eqn:Hnet;
      [|rewrite (main_url_fetch_fails w prog arg Hargv Hurl Hf Hd Hnet) in Hret;
        discriminate].
    pose proof (main_url_fetched w prog arg Hargv data Hurl Hf Hd Hnet)
      as Hmain.
    destruct (decode_rgba data) as [img|] eqn:Hdec;
      [|rewrite Hmain in Hret; discriminate].
    exists img. eexists. split; [reflexivity|].
    split; [eapply acquired_url; eassumption|].
    rewrite Hmain in Hret |- *.
    destruct (save_icon_spec (ICON_PATH w) img
                (after_download (strip arg) data w))
      as (Herr' & Hsub & _ & [Hok|[[e He] _]]); [|congruence].
    cbv zeta in Hok. unfold out_path.
    destruct Hok as (_ & -> & -> & -> & Hd1 & Hd2 & Hd3).
    rewrite Herr', (after_download_files w arg data Hf),
      (after_download_trace w arg data), <- !app_assoc.
    repeat split; assumption.
  - destruct (files w !! abspath (cwd w) (strip arg)) as [data|] eqn:Hfile;
      [|rewrite (main_local_not_a_file w prog arg Hargv Hurl Hfile) in Hret;
        discriminate].
    destruct (decode_rgba data) as [img|] eqn:Hdec;
      [|rewrite (main_local_undecodable w prog arg Hargv data Hurl Hfile Hdec)
          in Hret; discriminate].
    exists img. eexists. split; [reflexivity|].
    split; [eapply acquired_local; eassumption|].
    rewrite (main_local_decoded w prog arg Hargv data img Hurl Hfile Hdec)
      in Hret |- *.
    match goal with
    | |- context [bind _ _ ?w1] =>
        destruct (save_icon_spec (ICON_PATH w) img w1)
          as (Herr' & Hsub & _ & [Hok|[[e He] _]]); [|congruence]
    end.
    cbv zeta in Hok. unfold out_path. fields.
    destruct Hok as (_ & -> & -> & -> & Hd1 & Hd2 & Hd3).
    rewrite Herr', <- !app_assoc.
    repeat split; assumption.
Qed.

(** Once the fetch has gone through, the temporary file is gone when the
    run ends, however it ends. *)
Lemma temporary_file_removed_after_fetch (w : world) (prog arg : string)
    (data : bytes) :
  sys_argv w = [prog; arg] ->
  is_url (strip arg) = true ->
  files w !! tmp_name w = None -> tmp_name w ∉ dirs w ->
  net w (strip arg) = Some data ->
  tmp_name w <> out_path w ->
  files (main w).2 !! tmp_name w = None.
Proof.
  intros Hargv Hurl Hf Hd Hnet Hne.
  rewrite (main_url_fetched w prog arg Hargv data Hurl Hf Hd Hnet).
  destruct (decode_rgba data) as [img|].
  - destruct (save_icon_spec (ICON_PATH w) img
                (after_download (strip arg) data w))
      as (_ & _ & _ & [Hok|(_ & Hfiles & _)]).
    + destruct Hok as (_ & -> & _).
      rewrite (after_download_files w arg data Hf).
      rewrite lookup_insert_ne; [exact Hf|].
      intros Heq. apply Hne. rewrite <- Heq. reflexivity.
    + rewrite Hfiles, (after_download_files w arg data Hf). exact Hf.
  - cbn [snd]. now rewrite (after_download_files w arg data Hf).
Qed.

(** *** The calls of a run *)

(** The calls a run with one argument makes: those of the acquisition,
    which depend on the kind of source, then at most [makedirs] and
    [save]. *)
Lemma main_trace (w : world) (prog arg : string) :
  sys_argv w = [prog; arg] ->
  exists acq rest,
    trace (main w).2 = (trace w ++ acq ++ rest)%list /\
    (forall e, e ∈ rest ->
               is_download_event e = false /\ is_local_event e = false) /\
    if is_url (strip arg) then
      acq = [EvTempFile (tmp_name w)] \/
      acq = [EvTempFile (tmp_name w);
             EvUrlRetrieve (strip arg) (tmp_name w)] \/
      acq = [EvTempFile (tmp_name w);
             EvUrlRetrieve (strip arg) (tmp_name w);
             EvImageOpen (tmp_name w); EvUnlink (tmp_name w)]
    else
      acq = [EvIsFile (abspath (cwd w) (strip arg))] \/
      acq = [EvIsFile (abspath (cwd w) (strip arg));
             EvImageOpen (abspath (cwd w) (strip arg))].
Proof.
  intros Hargv.
  assert (Hsave : forall img w1,
             exists rest,
               trace (save_icon (ICON_PATH w) img w1).2
               = (trace w1 ++ rest)%list /\
               forall e, e ∈ rest ->
                 is_download_event e = false /\ is_local_event e = false).
  { intros img w1.
    destruct (save_icon_spec (ICON_PATH w) img w1)
      as (_ & _ & _ & [Hok|(_ & _ & _ & evs & Htr & Hevs)]).
    - destruct Hok as (_ & _ & _ & Htr & _). eexists. split; [exact Htr|].
      intros ev Hev. apply elem_of_cons in Hev as [->|Hev]; [done|].
      apply elem_of_cons in Hev as [->|Hev]; [done|]. inversion Hev.
    - eexists. split; [exact Htr|].
      intros ev Hev. apply elem_of_cons in Hev as [->|Hev]; [done|].
      apply Hevs in Hev. apply elem_of_cons in Hev as [->|Hev]; [done|].
      inversion Hev. }
  destruct (is_url (strip arg)) eqn:Hurl.
  - destruct (files w !! tmp_name w) as [old|] eqn:Hf.
    { rewrite (main_url_tmp_taken w prog arg Hargv Hurl) by eauto.
      exists [EvTempFile (tmp_name w)], []. fields.
      split; [reflexivity|]. split; [intros ev Hev; inversion Hev | auto]. }
    destruct (decide (tmp_name w ∈ dirs w)) as [Hd|Hd].
    { rewrite (main_url_tmp_taken w prog arg Hargv Hurl) by eauto.
      exists [EvTempFile (tmp_name w)], []. fields.
      split; [reflexivity|]. split; [intros ev Hev; inversion Hev | auto]. }
    destruct (net w (strip arg)) as [data|] eqn:Hnet.
    + rewrite (main_url_fetched w prog arg Hargv data Hurl Hf Hd Hnet).
      destruct (decode_rgba data) as [img|].
      * destruct (Hsave img (after_download (strip arg) data w))
          as (rest & Htr & Hrest).
        eexists _, rest. rewrite Htr, after_download_trace, <- app_assoc.
        split; [reflexivity|]. split; [exact Hrest | auto].
      * eexists _, []. fields.
        rewrite after_download_trace, app_nil_r.
        split; [reflexivity|]. split; [intros ev Hev; inversion Hev | auto].
    + rewrite (main_url_fetch_fails w prog arg Hargv Hurl Hf Hd Hnet).
      eexists [_; _], []. fields. rewrite <- !app_assoc.
      split; [reflexivity|]. split; [intros ev Hev; inversion Hev | auto].
  - destruct (files w !! abspath (cwd w) (strip arg)) as [data|] eqn:Hfile.
    + destruct (decode_rgba data) as [img|] eqn:Hdec.
      * rewrite (main_local_decoded w prog arg Hargv data img Hurl Hfile Hdec).
        match goal with
        | |- context [bind _ _ ?w1] =>
            destruct (Hsave img w1) as (rest & Htr & Hrest)
        end.
        eexists [_; _], rest. rewrite Htr. fields. rewrite <- !app_assoc.
        split; [reflexivity|]. split; [exact Hrest | auto].
      * rewrite (main_local_undecodable w prog arg Hargv data Hurl Hfile Hdec).
        eexists [_; _], []. fields. rewrite <- !app_assoc.
        split; [reflexivity|]. split; [intros ev Hev; inversion Hev | auto].
    + rewrite (main_local_not_a_file w prog arg Hargv Hurl Hfile).
      eexists [_], []. fields.
      split; [reflexivity|]. split; [intros ev Hev; inversion Hev | auto].
Qed.

End Main.

(** ** [sys.argv] is read once *)

Section ArgvBlind.
Context `{Codec}.

Lemma blind_ret {A} (a : A) : argv_blind (ret a).
Proof. now intros argv w. Qed.

Lemma blind_sys_exit {A} (c : Z) : argv_blind (@sys_exit A c).
Proof. now intros argv w. Qed.

Lemma blind_bind {A B} (m : M A) (k : A -> M B) :
  argv_blind m -> (forall a, argv_blind (k a)) -> argv_blind (bind m k).
Proof.
  intros Hm Hk argv w. unfold bind. rewrite Hm.
  destruct (m w) as [[a|c|e] w1]; cbn [fst snd]; [apply Hk | done..].
Qed.

Lemma blind_when (cond : bool) (body : M unit) :
  argv_blind body -> argv_blind (when cond body).
Proof. destruct cond; [auto | intros _; apply blind_ret]. Qed.

Lemma blind_try_finally {A} (body : M A) (handler : M unit) :
  argv_blind body -> argv_blind handler ->
  argv_blind (try_finally body handler).
Proof.
  intros Hb Hh argv w. unfold try_finally. rewrite Hb.
  destruct (body w) as [r w1]. cbn [fst snd]. rewrite Hh.
  now destruct (handler w1) as [[[]|c|e] w2].
Qed.

Lemma blind_print (s : string) : argv_blind (print s).
Proof. now intros argv w. Qed.

Lemma blind_print_stderr (s : string) : argv_blind (print_stderr s).
Proof. now intros argv w. Qed.

Lemma blind_NamedTemporaryFile (suffix : string) :
  argv_blind (NamedTemporaryFile suffix).
Proof.
  intros argv w. unfold NamedTemporaryFile. fields.
  now destruct (_ || _).
Qed.

Lemma blind_close (f : string) : argv_blind (close f).
Proof. now intros argv w. Qed.

Lemma blind_urlretrieve (url filename : string) :
  argv_blind (urlretrieve url filename).
Proof.
  intros argv w. unfold urlretrieve. fields. now destruct (net w url).
Qed.

Lemma blind_Image_open (path : string) :
  argv_blind (Image_open_convert_RGBA path).
Proof.
  intros argv w. unfold Image_open_convert_RGBA. fields.
  destruct (files w !! path) as [data|]; [|done].
  now destruct (decode_rgba data).
Qed.

Lemma blind_os_unlink (path : string) : argv_blind (os_unlink path).
Proof.
  intros argv w. unfold os_unlink. fields. now destruct (files w !! path).
Qed.

Lemma blind_os_path_abspath (p : string) : argv_blind (os_path_abspath p).
Proof. now intros argv w. Qed.

Lemma blind_os_path_isfile (path : string) : argv_blind (os_path_isfile path).
Proof. now intros argv w. Qed.

Lemma blind_mkdir_exist_ok (e : exn) (name : string) :
  argv_blind (mkdir_exist_ok e name).
Proof.
  intros argv w. unfold mkdir_exist_ok. fields.
  destruct (bool_decide (name ∈ dirs w)); [done|].
  now destruct (bool_decide (is_Some (files w !! name))).
Qed.

Lemma blind_mkdir_chain (names : list string) :
  argv_blind (mkdir_chain names).
Proof.
  induction names as [|n names IH]; cbn [mkdir_chain].
  - apply blind_ret.
  - apply blind_bind; [apply blind_mkdir_exist_ok | intros _; exact IH].
Qed.

Lemma blind_os_makedirs (name : string) : argv_blind (os_makedirs name).
Proof.
  intros argv w. unfold os_makedirs.
  change (log (EvMakedirs name) (set_argv argv w))
    with (set_argv argv (log (EvMakedirs name) w)).
  apply blind_bind; [apply blind_mkdir_chain|].
  intros _. apply blind_mkdir_exist_ok.
Qed.

Lemma blind_Image_save (im : image) (path : string) :
  argv_blind (Image_save im path).
Proof.
  intros argv w. unfold Image_save. fields.
  destruct (bool_decide (path ∈ dirs w)); [done|].
  now destruct (negb _).
Qed.

Lemma blind_with_NamedTemporaryFile {A} (suffix : string)
    (body : string -> M A) :
  (forall f, argv_blind (body f)) ->
  argv_blind (with_NamedTemporaryFile suffix body).
Proof.
  intros Hb. apply blind_bind; [apply blind_NamedTemporaryFile|].
  intros f. apply blind_try_finally; [apply Hb | apply blind_close].
Qed.

End ArgvBlind.

Create HintDb blind.
#[export] Hint Resolve blind_ret blind_sys_exit blind_print blind_print_stderr
  blind_NamedTemporaryFile blind_close blind_urlretrieve blind_Image_open
  blind_os_unlink blind_os_path_abspath blind_os_path_isfile
  blind_os_makedirs blind_Image_save : blind.

(** Walk a program built from [bind], [when], [try ... finally] and [with]
    down to its calls. *)
Ltac blind :=
  repeat first
    [ solve [auto with blind]
    | apply blind_bind; [|intros ?]
    | apply blind_when
    | apply blind_try_finally
    | apply blind_with_NamedTemporaryFile; intros ?
    | match goal with
      | |- argv_blind (if ?c then _ else _) => destruct c
      end ].

Section ArgvOnce.
Context `{Codec}.

(** Lines 36 to 54 of [main]: everything after the argument is stripped. *)
Local Abbreviation acquire_and_save src icon :=
  (img <- (if startswith src "http://" || startswith src "https://" then
             path <- with_NamedTemporaryFile ".png" (fun f =>
                       urlretrieve src f ;;
                       ret f) ;;
             try_finally (Image_open_convert_RGBA path) (os_unlink path)
           else
             path <- os_path_abspath src ;;
             isfile <- os_path_isfile path ;;
             when (negb isfile)
               (print_stderr ("Not a file: " ++ path) ;;
                sys_exit 1) ;;
             Image_open_convert_RGBA path) ;;
   out_path <- os_path_abspath icon ;;
   os_makedirs (dirname out_path) ;;
   let resized := resize img (1024, 1024)%Z in
   Image_save resized out_path ;;
   print ("Saved 1024x1024 app icon to " ++ out_path)).

Lemma main_one_argument (w : world) (prog arg : string) :
  sys_argv w = [prog; arg] ->
  main w = acquire_and_save (strip arg) (ICON_PATH w) w.
Proof. intros Hargv. unfold main. rewrite Hargv. reflexivity. Qed.

Lemma blind_acquire_and_save (src icon : string) :
  argv_blind (acquire_and_save src icon).
Proof. blind. Qed.

Lemma ICON_PATH_set_argv (argv : list string) (w : world) :
  ICON_PATH (set_argv argv w) = ICON_PATH w.
Proof. reflexivity. Qed.

(** Running on an argument and running on the stripped argument end the
    same way and leave the same world. *)
Lemma main_strips_argument (w : world) (prog arg : string) :
  main (set_argv [prog; strip arg] w) =
  ((main (set_argv [prog; arg] w)).1,
   set_argv [prog; strip arg] (main (set_argv [prog; arg] w)).2).
Proof.
  rewrite (main_one_argument (set_argv [prog; strip arg] w) prog (strip arg))
    by reflexivity.
  rewrite (main_one_argument (set_argv [prog; arg] w) prog arg)
    by reflexivity.
  rewrite strip_idempotent.
  rewrite !ICON_PATH_set_argv, !blind_acquire_and_save. reflexivity.
Qed.

End ArgvOnce.

(** * The specification, claim by claim *)

(** ** Resampling (C8, C9) *)

Section ResamplingClaims.
Local Open Scope Z_scope.

Lemma coordinates_wf (w h : Z) :
  0 <= w -> 0 <= h -> wf_image (Samples.coordinates w h).
Proof. exact (tabulate_wf (fun x y => RGBA x y 0 255) w h). Qed.

Lemma coordinates_getpixel (w h x y : Z) :
  0 <= x < w -> 0 <= y < h ->
  getpixel (Samples.coordinates w h) x y = Some (RGBA x y 0 255).
Proof. exact (getpixel_tabulate (fun x y => RGBA x y 0 255) w h x y). Qed.

Lemma solid_getpixel (w h : Z) (c : pixel) (x y : Z) :
  0 <= x < w -> 0 <= y < h ->
  getpixel (Samples.solid w h c) x y = Some c.
Proof. exact (getpixel_tabulate (fun _ _ => c) w h x y). Qed.

(** C8, as the code has it.  For a well-formed source of width [src_w > 0]
    and height [src_h > 0] and every output coordinate [0 <= x, y < 1024],
    the output pixel at [(x, y)] is the source pixel at
    [(floor((2x+1) * src_w / 2048), floor((2y+1) * src_h / 2048))]: the
    source pixel under the centre of the output pixel.  Where [src_w] and
    [src_h] divide 1024 (a 64x64 icon, say) that is the pixel at
    [(floor(x * src_w / 1024), floor(y * src_h / 1024))]. *)
Theorem resize_samples_pixel_centres (im : image) (x y : Z) :
  wf_image im -> 0 < xsize im -> 0 < ysize im ->
  0 <= x < 1024 -> 0 <= y < 1024 ->
  is_Some (getpixel (resize im (1024, 1024)) x y) /\
  getpixel (resize im (1024, 1024)) x y =
    getpixel im ((2 * x + 1) * xsize im / 2048)
                ((2 * y + 1) * ysize im / 2048) /\
  ((xsize im | 1024) -> (ysize im | 1024) ->
   getpixel (resize im (1024, 1024)) x y =
     getpixel im (x * xsize im / 1024) (y * ysize im / 1024)).
Proof.
  intros Hwf Hw Hh Hx Hy.
  pose proof (scale_coord_range (xsize im) 1024 x Hw ltac:(lia) Hx) as Hsx.
  pose proof (scale_coord_range (ysize im) 1024 y Hh ltac:(lia) Hy) as Hsy.
  destruct (getpixel_is_Some im _ _ Hwf Hsx Hsy) as [p Hp].
  assert (Hget : getpixel (resize im (1024, 1024)) x y =
                 getpixel im (scale_coord (xsize im) 1024 x)
                             (scale_coord (ysize im) 1024 y)).
  { rewrite getpixel_resize, Hp by assumption. reflexivity. }
  split; [rewrite Hget, Hp; eauto|]. split; [exact Hget|].
  intros Hdw Hdh. rewrite Hget.
  rewrite (scale_coord_divides (xsize im) 1024 x) by (assumption || lia).
  rewrite (scale_coord_divides (ysize im) 1024 y) by (assumption || lia).
  reflexivity.
Qed.

Lemma resize_samples_pixel_centres_witness :
  is_Some (getpixel (resize (Samples.coordinates 64 64) (1024, 1024)) 100 200) /\
  getpixel (resize (Samples.coordinates 64 64) (1024, 1024)) 100 200 =
    getpixel (Samples.coordinates 64 64)
      ((2 * 100 + 1) * xsize (Samples.coordinates 64 64) / 2048)
      ((2 * 200 + 1) * ysize (Samples.coordinates 64 64) / 2048) /\
  ((xsize (Samples.coordinates 64 64) | 1024) ->
   (ysize (Samples.coordinates 64 64) | 1024) ->
   getpixel (resize (Samples.coordinates 64 64) (1024, 1024)) 100 200 =
     getpixel (Samples.coordinates 64 64)
       (100 * xsize (Samples.coordinates 64 64) / 1024)
       (200 * ysize (Samples.coordinates 64 64) / 1024)).
Proof.
  apply (resize_samples_pixel_centres (Samples.coordinates 64 64) 100 200).
  - apply coordinates_wf; lia.
  - simpl; lia.
  - simpl; lia.
  - lia.
  - lia.
Defined.

(** C8 as the specification words it fails: on a 3x3 source, output
    pixel (341, 0) is source pixel (1, 0), since
    [(2 * 341 + 1) * 3 / 2048 = 1], while [341 * 3 / 1024 = 0]. *)
Lemma resize_is_not_corner_sampling :
  wf_image (Samples.coordinates 3 3) /\
  getpixel (resize (Samples.coordinates 3 3) (1024, 1024)) 341 0
    = Some (RGBA 1 0 0 255) /\
  getpixel (Samples.coordinates 3 3)
    (341 * xsize (Samples.coordinates 3 3) / 1024)
    (0 * ysize (Samples.coordinates 3 3) / 1024)
    = Some (RGBA 0 0 0 255) /\
  getpixel (resize (Samples.coordinates 3 3) (1024, 1024)) 341 0 <>
  getpixel (Samples.coordinates 3 3)
    (341 * xsize (Samples.coordinates 3 3) / 1024)
    (0 * ysize (Samples.coordinates 3 3) / 1024).
Proof.
  assert (Hout : getpixel (resize (Samples.coordinates 3 3) (1024, 1024)) 341 0
                 = Some (RGBA 1 0 0 255)).
  { rewrite getpixel_resize by lia. vm_compute. reflexivity. }
  assert (Hsrc : getpixel (Samples.coordinates 3 3)
                   (341 * xsize (Samples.coordinates 3 3) / 1024)
                   (0 * ysize (Samples.coordinates 3 3) / 1024)
                 = Some (RGBA 0 0 0 255)).
  { vm_compute. reflexivity. }
  split; [apply coordinates_wf; lia|].
  rewrite Hout, Hsrc. repeat split. discriminate.
Qed.

(** C9.  If every pixel of a (non-empty) source image has the value [c],
    every pixel of the 1024x1024 result has the value [c]. *)
Theorem resize_of_solid_colour (im : image) (c : pixel) :
  0 < xsize im -> 0 < ysize im ->
  (forall x y, 0 <= x < xsize im -> 0 <= y < ysize im ->
               getpixel im x y = Some c) ->
  forall x y, 0 <= x < 1024 -> 0 <= y < 1024 ->
              getpixel (resize im (1024, 1024)) x y = Some c.
Proof.
  intros Hw Hh Hsolid x y Hx Hy.
  rewrite getpixel_resize by assumption.
  rewrite Hsolid; [reflexivity | |]; apply scale_coord_range; lia.
Qed.

Lemma resize_of_solid_colour_witness :
  getpixel (resize (Samples.solid 2 2 (RGBA 10 20 30 255)) (1024, 1024)) 700 3
  = Some (RGBA 10 20 30 255).
Proof.
  apply (resize_of_solid_colour (Samples.solid 2 2 (RGBA 10 20 30 255))
           (RGBA 10 20 30 255)).
  - simpl; lia.
  - simpl; lia.
  - intros x y Hx Hy. apply solid_getpixel; assumption.
  - lia.
  - lia.
Defined.

End ResamplingClaims.

(** ** The run (C1 to C7, C10) *)

Section RunClaims.
Context `{Codec}.

(** The script is [main] wherever Pillow can be imported. *)
Lemma script_runs_main (w : world) :
  pillow_importable w = true -> script w = main w.
Proof. intros Hp. unfold script. now rewrite Hp. Qed.


(** C3, as the code has it.  On every run that returns, standard output
    gains exactly one line: the words [Saved 1024x1024 app icon to]
    followed by the absolute destination path. *)
Theorem success_line_on_stdout (w : world) :
  (main w).1 = Return tt ->
  stdout (main w).2 =
  stdout w ++ "Saved 1024x1024 app icon to " ++ out_path w ++ newline.
Proof.
  intros Hret.
  destruct (main_returns_inv w Hret)
    as (prog & arg & img & evs & _ & _ & _ & Hout & _).
  rewrite Hout.
  rewrite (string_app_assoc "Saved 1024x1024 app icon to " (out_path w) newline).
  reflexivity.
Qed.


(** C5.  With a number of arguments other than one, the run prints the
    usage line on standard error, exits with status 1, and touches
    neither a file nor a directory nor standard output. *)
Theorem wrong_argument_count (w : world) :
  length (sys_argv w) <> 2%nat ->
  (main w).1 = SysExit 1 /\
  exit_status (main w).1 = 1%Z /\
  stderr (main w).2 =
    stderr w ++ "Usage: python3 upscale-app-icon.py <path_or_url>" ++ newline /\
  files (main w).2 = files w /\
  dirs (main w).2 = dirs w /\
  stdout (main w).2 = stdout w /\
  trace (main w).2 = trace w.
Proof. intros Hlen. rewrite (main_usage w Hlen). now repeat split. Qed.

(** C6.  With one argument that is not a URL and does not name a regular
    file once made absolute, the run prints [Not a file: <path>] on
    standard error, exits with status 1, and touches neither a file nor a
    directory nor standard output. *)
Theorem missing_local_file (w : world) (prog arg : string) :
  sys_argv w = [prog; arg] ->
  is_url (strip arg) = false ->
  files w !! abspath (cwd w) (strip arg) = None ->
  (main w).1 = SysExit 1 /\
  exit_status (main w).1 = 1%Z /\
  stderr (main w).2 =
    stderr w ++ "Not a file: " ++ abspath (cwd w) (strip arg) ++ newline /\
  files (main w).2 = files w /\
  dirs (main w).2 = dirs w /\
  stdout (main w).2 = stdout w.
Proof.
  intros Hargv Hurl Hfile.
  rewrite (main_local_not_a_file w prog arg Hargv Hurl Hfile). fields.
  rewrite (string_app_assoc "Not a file: " (abspath (cwd w) (strip arg))
             newline).
  repeat split; reflexivity.
Qed.

(** C7, as the code has it.  A run with one argument makes the calls of a
    download (temporary file, fetch, unlink) if and only if the argument,
    once stripped of surrounding white space, starts with [http://] or
    [https://]; otherwise, and only then, it tests a local path.  What is
    fetched is the stripped argument, into the temporary file; what is
    tested is the stripped argument made absolute. *)
Theorem url_dispatch_after_strip (w : world) (prog arg : string) :
  sys_argv w = [prog; arg] ->
  exists evs,
    trace (main w).2 = (trace w ++ evs)%list /\
    ((exists e, e ∈ evs /\ is_download_event e = true) <->
     startswith (strip arg) "http://" = true \/
     startswith (strip arg) "https://" = true) /\
    ((exists e, e ∈ evs /\ is_local_event e = true) <->
     ~ (startswith (strip arg) "http://" = true \/
        startswith (strip arg) "https://" = true)) /\
    (forall u f, EvUrlRetrieve u f ∈ evs ->
                 u = strip arg /\ f = tmp_name w) /\
    (forall p, EvIsFile p ∈ evs -> p = abspath (cwd w) (strip arg)).
Proof.
  intros Hargv.
  destruct (main_trace w prog arg Hargv) as (acq & rest & Htr & Hrest & Hacq).
  exists (acq ++ rest)%list. split; [exact Htr|].
  assert (Hprefix : is_url (strip arg) = true <->
                    startswith (strip arg) "http://" = true \/
                    startswith (strip arg) "https://" = true)
    by (unfold is_url; apply orb_true_iff).
  assert (Hin : forall e, e ∈ (acq ++ rest)%list ->
                          is_download_event e = true \/ is_local_event e = true ->
                          e ∈ acq).
  { intros e He Hkind. apply elem_of_app in He as [He|He]; [exact He|].
    destruct (Hrest e He) as [H1 H2]. rewrite H1, H2 in Hkind.
    destruct Hkind; discriminate. }
  destruct (is_url (strip arg)) eqn:Hurl.
  - assert (Hacq' : forall e, e ∈ acq ->
               e = EvTempFile (tmp_name w) \/
               e = EvUrlRetrieve (strip arg) (tmp_name w) \/
               e = EvImageOpen (tmp_name w) \/ e = EvUnlink (tmp_name w)).
    { intros e He. destruct Hacq as [-> | [-> | ->]];
        repeat (apply elem_of_cons in He as [->|He]; [auto|]);
        inversion He. }
    assert (Hfirst : EvTempFile (tmp_name w) ∈ acq)
      by (destruct Hacq as [-> | [-> | ->]]; apply elem_of_cons; auto).
    split; [|split; [|split]].
    + split; [intros _; now apply Hprefix|].
      intros _. exists (EvTempFile (tmp_name w)). split; [|reflexivity].
      apply elem_of_app. auto.
    + split.
      * intros (e & He & Hk) _. apply Hin in He; [|auto].
        destruct (Hacq' e He) as [E|[E|[E|E]]]; subst e; discriminate.
      * intros Hn. exfalso. apply Hn. now apply Hprefix.
    + intros u f Hu. apply Hin in Hu; [|auto].
      destruct (Hacq' _ Hu) as [E|[E|[E|E]]]; split; congruence.
    + intros p Hp. apply Hin in Hp; [|auto].
      destruct (Hacq' _ Hp) as [E|[E|[E|E]]]; discriminate.
  - assert (Hacq' : forall e, e ∈ acq ->
               e = EvIsFile (abspath (cwd w) (strip arg)) \/
               e = EvImageOpen (abspath (cwd w) (strip arg))).
    { intros e He. destruct Hacq as [-> | ->];
        repeat (apply elem_of_cons in He as [->|He]; [auto|]);
        inversion He. }
    assert (Hfirst : EvIsFile (abspath (cwd w) (strip arg)) ∈ acq)
      by (destruct Hacq as [-> | ->]; apply elem_of_cons; auto).
    split; [|split; [|split]].
    + split.
      * intros (e & He & Hk). apply Hin in He; [|auto].
        destruct (Hacq' e He) as [E|E]; subst e; discriminate.
      * intros Hp. apply Hprefix in Hp. discriminate.
    + split.
      * intros _ Hp. apply Hprefix in Hp. discriminate.
      * intros _. exists (EvIsFile (abspath (cwd w) (strip arg))).
        split; [|reflexivity]. apply elem_of_app. auto.
    + intros u f Hu. apply Hin in Hu; [|auto].
      destruct (Hacq' _ Hu) as [E|E]; discriminate.
    + intros p Hp. apply Hin in Hp; [|auto].
      destruct (Hacq' _ Hp) as [E|E]; congruence.
Qed.


End RunClaims.

(** ** The claims on the sample machine *)

Import Samples.

Lemma run_local_returns : (main run_local).1 = Return tt.
Proof.
  rewrite (main_local_decoded run_local script_name "icon.png" eq_refl
             two_pixels two_pixel_image);
    [|vm_compute; reflexivity..].
  apply save_icon_returns.
  - vm_compute. reflexivity.
  - intros Hin. pose proof (bool_decide_eq_true_2 _ Hin) as Hb.
    vm_compute in Hb. discriminate.
Qed.

Lemma run_url_spaces_returns : (main run_url_spaces).1 = Return tt.
Proof.
  rewrite (main_url_fetched run_url_spaces script_name padded_url eq_refl
             two_pixels);
    [| vm_compute; reflexivity
     | vm_compute; reflexivity
     | intros Hin; pose proof (bool_decide_eq_true_2 _ Hin) as Hb;
       vm_compute in Hb; discriminate
     | vm_compute; reflexivity].
  change (decode_rgba two_pixels) with (Some two_pixel_image).
  apply save_icon_returns.
  - vm_compute. reflexivity.
  - intros Hin. pose proof (bool_decide_eq_true_2 _ Hin) as Hb.
    vm_compute in Hb. discriminate.
Qed.

Lemma run_url_spaces_trace :
  trace (main run_url_spaces).2 =
  [EvTempFile (tmp_name run_url_spaces);
   EvUrlRetrieve icon_url (tmp_name run_url_spaces);
   EvImageOpen (tmp_name run_url_spaces);
   EvUnlink (tmp_name run_url_spaces);
   EvMakedirs (dirname icon_file);
   EvSave icon_file].
Proof.
  destruct (main_returns_inv run_url_spaces run_url_spaces_returns)
    as (prog & arg & img & evs & Hargv & Hacq & _ & _ & _ & Htr & _).
  injection Hargv as <- <-.
  inversion Hacq as [data Hurl _ _ _ _ Hevs|data Hurl _ _ Hevs]; subst evs.
  - rewrite Htr. vm_compute. reflexivity.
  - vm_compute in Hurl. discriminate.
Qed.


(** C2 fails on the code: the host of the URL cannot be reached,
    [urlretrieve] raises inside the [with] block, before the
    [try ... finally] that unlinks, and the temporary file stays behind. *)
Theorem fetch_failure_leaves_temporary_file :
  sys_argv run_unreachable = [script_name; unreachable_url] /\
  is_url (strip unreachable_url) = true /\
  net run_unreachable (strip unreachable_url) = None /\
  files run_unreachable !! tmp_name run_unreachable = None /\
  (main run_unreachable).1 = Raised URLError /\
  exit_status (main run_unreachable).1 = 1%Z /\
  files (main run_unreachable).2 !! tmp_name run_unreachable = Some [].
Proof. vm_compute. repeat split. Qed.

(** C3 on the sample machine. *)
Lemma success_line_on_stdout_witness :
  (main run_local).1 = Return tt /\
  stdout (main run_local).2 =
  stdout run_local ++ "Saved 1024x1024 app icon to " ++ out_path run_local
    ++ newline.
Proof.
  split; [exact run_local_returns|].
  apply (success_line_on_stdout run_local). exact run_local_returns.
Defined.

(** C3 as the specification words it fails: the line is not the bare
    path. *)
Lemma stdout_line_is_not_the_bare_path :
  (main run_local).1 = Return tt /\
  stdout (main run_local).2 <>
  stdout run_local ++ out_path run_local ++ newline.
Proof.
  split; [exact run_local_returns|].
  destruct (main_returns_inv run_local run_local_returns)
    as (prog & arg & img & evs & _ & _ & _ & Hout & _).
  rewrite Hout. vm_compute. discriminate.
Qed.


(** C5 on the sample machine, no argument. *)
Lemma wrong_argument_count_witness :
  length (sys_argv run_no_argument) <> 2%nat /\
  (main run_no_argument).1 = SysExit 1 /\
  exit_status (main run_no_argument).1 = 1%Z /\
  stderr (main run_no_argument).2 =
    stderr run_no_argument
    ++ "Usage: python3 upscale-app-icon.py <path_or_url>" ++ newline /\
  files (main run_no_argument).2 = files run_no_argument /\
  dirs (main run_no_argument).2 = dirs run_no_argument /\
  stdout (main run_no_argument).2 = stdout run_no_argument /\
  trace (main run_no_argument).2 = trace run_no_argument.
Proof.
  split; [simpl; lia|].
  apply (wrong_argument_count run_no_argument). simpl. lia.
Defined.

(** C6 on the sample machine, a path that names nothing. *)
Lemma missing_local_file_witness :
  sys_argv run_missing = [script_name; "missing.png"] /\
  is_url (strip "missing.png") = false /\
  files run_missing !! abspath (cwd run_missing) (strip "missing.png") = None /\
  (main run_missing).1 = SysExit 1 /\
  exit_status (main run_missing).1 = 1%Z /\
  stderr (main run_missing).2 =
    stderr run_missing ++ "Not a file: "
    ++ abspath (cwd run_missing) (strip "missing.png") ++ newline /\
  files (main run_missing).2 = files run_missing /\
  dirs (main run_missing).2 = dirs run_missing /\
  stdout (main run_missing).2 = stdout run_missing.
Proof.
  split; [reflexivity|].
  split; [vm_compute; reflexivity|].
  split; [vm_compute; reflexivity|].
  apply (missing_local_file run_missing script_name "missing.png").
  - reflexivity.
  - vm_compute. reflexivity.
  - vm_compute. reflexivity.
Defined.

(** C7 on the sample machine, a URL between spaces. *)
Lemma url_dispatch_after_strip_witness :
  sys_argv run_url_spaces = [script_name; padded_url] /\
  exists evs,
    trace (main run_url_spaces).2 = (trace run_url_spaces ++ evs)%list /\
    ((exists e, e ∈ evs /\ is_download_event e = true) <->
     startswith (strip padded_url) "http://" = true \/
     startswith (strip padded_url) "https://" = true) /\
    ((exists e, e ∈ evs /\ is_local_event e = true) <->
     ~ (startswith (strip padded_url) "http://" = true \/
        startswith (strip padded_url) "https://" = true)) /\
    (forall u f, EvUrlRetrieve u f ∈ evs ->
                 u = strip padded_url /\ f = tmp_name run_url_spaces) /\
    (forall p, EvIsFile p ∈ evs ->
               p = abspath (cwd run_url_spaces) (strip padded_url)).
Proof.
  split; [reflexivity|].
  apply (url_dispatch_after_strip run_url_spaces script_name padded_url).
  reflexivity.
Defined.

(** C7 as the specification words it fails: this argument begins with a
    space, neither with [http://] nor with [https://], and it is fetched. *)
Lemma padded_url_is_fetched :
  sys_argv run_url_spaces = [script_name; padded_url] /\
  startswith padded_url "http://" = false /\
  startswith padded_url "https://" = false /\
  EvUrlRetrieve icon_url (tmp_name run_url_spaces)
    ∈ trace (main run_url_spaces).2 /\
  (forall p, EvIsFile p ∉ trace (main run_url_spaces).2).
Proof.
  split; [reflexivity|].
  split; [vm_compute; reflexivity|].
  split; [vm_compute; reflexivity|].
  rewrite run_url_spaces_trace. split.
  - apply list_elem_of_lookup. exists 1%nat. reflexivity.
  - intros p Hp.
    repeat (apply elem_of_cons in Hp as [Hp|Hp]; [discriminate|]).
    inversion Hp.
Qed.

(** On a fresh checkout the directories of the asset catalogue are made on
    the way. *)
Lemma fresh_checkout_returns : (main fresh_checkout).1 = Return tt.
Proof.
  rewrite (main_local_decoded fresh_checkout script_name "icon.png" eq_refl
             two_pixels two_pixel_image);
    [|vm_compute; reflexivity..].
  apply save_icon_returns.
  - vm_compute. reflexivity.
  - intros Hin. pose proof (bool_decide_eq_true_2 _ Hin) as Hb.
    vm_compute in Hb. discriminate.
Qed.

Example fresh_checkout_directories_created :
  files fresh_checkout !! icon_file = None /\
  ("/repo/frontend" ∉ dirs fresh_checkout) /\
  (dirname icon_file ∉ dirs fresh_checkout) /\
  "/repo/frontend" ∈ dirs (main fresh_checkout).2 /\
  dirname icon_file ∈ dirs (main fresh_checkout).2 /\
  is_Some (files (main fresh_checkout).2 !! icon_file).
Proof.
  destruct (main_returns_inv fresh_checkout fresh_checkout_returns)
    as (prog & arg & img & evs & _ & _ & Hfiles & _ & _ & _ & _ & Hdir & Hpar & _).
  change (out_path fresh_checkout) with icon_file in *.
  split; [vm_compute; reflexivity|].
  split; [intros Hin; pose proof (bool_decide_eq_true_2 _ Hin) as Hb;
          vm_compute in Hb; discriminate|].
  split; [intros Hin; pose proof (bool_decide_eq_true_2 _ Hin) as Hb;
          vm_compute in Hb; discriminate|].
  split; [apply Hpar; apply list_elem_of_lookup; exists 1%nat;
          vm_compute; reflexivity|].
  split; [exact Hdir|].
  rewrite Hfiles, lookup_insert_eq. eauto.
Qed.

(** * More of the script *)

(** ** Runs that do not return *)

Section Failures.
Context `{Codec}.

Local Opaque resize abspath strip dirname ICON_PATH os_makedirs startswith
String.append parents.

Local Abbreviation save_icon icon img :=
(out_path0 <- os_path_abspath icon ;;
 os_makedirs (dirname out_path0) ;;
 Image_save (resize img (1024, 1024)%Z) out_path0 ;;
 print ("Saved 1024x1024 app icon to " ++ out_path0)).

(** A run that does not return exits with status 1, has printed nothing on
  standard output, has removed no directory, and has left the files as
  they were, except that a download that failed leaves its empty
  temporary file. *)
Lemma main_failure_inv (w : world) :
(main w).1 <> Return tt ->
exit_status (main w).1 = 1%Z /\
stdout (main w).2 = stdout w /\
dirs w ⊆ dirs (main w).2 /\
(files (main w).2 = files w \/
 files w !! tmp_name w = None /\
 files (main w).2 = <[tmp_name w := []]> (files w)).
Proof.
intros Hfail.
assert (Hsave : forall img w1,
           files w1 = files w -> dirs w1 = dirs w -> stdout w1 = stdout w ->
           (save_icon (ICON_PATH w) img w1).1 <> Return tt ->
           exit_status (save_icon (ICON_PATH w) img w1).1 = 1%Z /\
           stdout (save_icon (ICON_PATH w) img w1).2 = stdout w /\
           dirs w ⊆ dirs (save_icon (ICON_PATH w) img w1).2 /\
           files (save_icon (ICON_PATH w) img w1).2 = files w).
{ intros img w1 Hf Hd Ho Hne.
  destruct (save_icon_spec (ICON_PATH w) img w1)
    as (_ & Hsub & _ & [Hok|([e He] & Hfiles & Hout & _)]).
  - destruct Hok as (Hret & _). contradiction.
  - rewrite He, Hfiles, Hout, Hf, Ho, <- Hd. repeat split; done. }
destruct (decide (length (sys_argv w) = 2%nat)) as [Hlen|Hlen].
2:{ rewrite (main_usage w Hlen). fields. repeat split; auto. }
destruct (sys_argv w) as [|prog [|arg [|? ?]]] eqn:Hargv; try discriminate.
clear Hlen.
destruct (is_url (strip arg)) eqn:Hurl.
- destruct (files w !! tmp_name w) as [old|] eqn:Hf.
  { rewrite (main_url_tmp_taken w prog arg Hargv Hurl) by eauto.
    fields. repeat split; auto. }
  destruct (decide (tmp_name w ∈ dirs w)) as [Hd|Hd].
  { rewrite (main_url_tmp_taken w prog arg Hargv Hurl) by eauto.
    fields. repeat split; auto. }
  destruct (net w (strip arg)) as [data|] eqn:Hnet.
  + rewrite (main_url_fetched w prog arg Hargv data Hurl Hf Hd Hnet) in *.
    destruct (decode_rgba data) as [img|].
    * destruct (Hsave img (after_download (strip arg) data w)) as (? & ? & ? & ?);
        [exact (after_download_files w arg data Hf) | reflexivity
        | reflexivity | exact Hfail |].
      repeat split; auto.
    * cbn [fst snd exit_status].
      rewrite (after_download_files w arg data Hf).
      repeat split; auto.
  + rewrite (main_url_fetch_fails w prog arg Hargv Hurl Hf Hd Hnet).
    fields. repeat split; auto.
- destruct (files w !! abspath (cwd w) (strip arg)) as [data|] eqn:Hfile.
  + destruct (decode_rgba data) as [img|] eqn:Hdec.
    * rewrite (main_local_decoded w prog arg Hargv data img Hurl Hfile Hdec)
        in *.
      match type of Hfail with
      | context [bind _ _ ?w1] =>
          destruct (Hsave img w1) as (? & ? & ? & ?);
            [reflexivity | reflexivity | reflexivity | exact Hfail |]
      end.
      repeat split; auto.
    * rewrite (main_local_undecodable w prog arg Hargv data Hurl Hfile Hdec).
      fields. repeat split; auto.
  + rewrite (main_local_not_a_file w prog arg Hargv Hurl Hfile).
    fields. repeat split; auto.
Qed.

End Failures.

Section RunExtras.
Context `{Codec}.

Lemma string_length_app (a b : string) :
String.length (a ++ b) = (String.length a + String.length b)%nat.
Proof.
induction a as [|x a IH]; [reflexivity|].
change (S (String.length (a ++ b)) = S (String.length a + String.length b)).
now rewrite IH.
Qed.

Lemma string_app_neq (a b : string) : is_empty b = false -> a ++ b <> a.
Proof.
intros Hb Heq. apply (f_equal String.length) in Heq.
rewrite string_length_app in Heq. destruct b; [discriminate|].
cbn [String.length] in Heq. lia.
Qed.

Lemma outcome_cases (o : outcome unit) : o = Return tt \/ o <> Return tt.
Proof. destruct o as [[]|c|e]; [now left | now right..]. Qed.

(** X1.  Where Pillow cannot be imported the script stops at the import:
  it prints [Need Pillow: pip install Pillow] on standard error and exits
  with status 1 whatever the arguments are, without the usage line and
  without touching a file, a directory, the network or standard output. *)
Theorem missing_pillow_stops_the_script (w : world) :
pillow_importable w = false ->
(script w).1 = SysExit 1 /\
exit_status (script w).1 = 1%Z /\
stderr (script w).2 =
  stderr w ++ "Need Pillow: pip install Pillow" ++ newline /\
files (script w).2 = files w /\
dirs (script w).2 = dirs w /\
stdout (script w).2 = stdout w /\
trace (script w).2 = trace w.
Proof. intros Hp. unfold script. rewrite Hp. now repeat split. Qed.


(** X3.  Whatever the run does, the only files it can change are the
  destination and the temporary file, and it never removes a directory:
  the source file and every other file are as they were. *)
Theorem run_touches_two_files_at_most (w : world) (p : string) :
p <> out_path w -> p <> tmp_name w ->
files (main w).2 !! p = files w !! p /\ dirs w ⊆ dirs (main w).2.
Proof.
intros Hout Htmp.
destruct (outcome_cases (main w).1) as [Hret|Hfail].
- destruct (main_returns_inv w Hret)
    as (prog & arg & img & evs & _ & _ & Hfiles & _ & _ & _ & Hsub & _).
  rewrite Hfiles, lookup_insert_ne by congruence. auto.
- destruct (main_failure_inv w Hfail) as (_ & _ & Hsub & Hfiles).
  split; [|exact Hsub].
  destruct Hfiles as [-> | [_ ->]]; [reflexivity|].
  rewrite lookup_insert_ne by congruence. reflexivity.
Qed.

(** X4.  The exit status is 0 or 1 and nothing else, and it is 0 exactly
  when standard output has gained the line that names the icon. *)
Theorem exit_status_is_0_or_1 (w : world) :
(exit_status (main w).1 = 0%Z \/ exit_status (main w).1 = 1%Z) /\
(exit_status (main w).1 = 0%Z <->
 stdout (main w).2 =
 stdout w ++ "Saved 1024x1024 app icon to " ++ out_path w ++ newline).
Proof.
destruct (outcome_cases (main w).1) as [Hret|Hfail].
- destruct (main_returns_inv w Hret)
    as (prog & arg & img & evs & _ & _ & _ & Hout & _).
  rewrite Hret. cbn [exit_status]. split; [auto|].
  split; [intros _|reflexivity].
  rewrite Hout.
  rewrite (string_app_assoc "Saved 1024x1024 app icon to " (out_path w)
             newline).
  reflexivity.
- destruct (main_failure_inv w Hfail) as (Hst & Hout & _).
  rewrite Hst, Hout. split; [auto|]. split; [discriminate|].
  intros Heq. symmetry in Heq. now apply string_app_neq in Heq.
Qed.

(** X5.  Once the fetch has gone through, the temporary file is opened and
  unlinked before anything else happens, so it is gone at the end of the
  run however the run ends: decoded or not, saved or not. *)
Theorem fetched_file_is_unlinked (w : world) (prog arg : string)
  (data : bytes) :
sys_argv w = [prog; arg] ->
is_url (strip arg) = true ->
files w !! tmp_name w = None -> tmp_name w ∉ dirs w ->
net w (strip arg) = Some data ->
tmp_name w <> out_path w ->
files (main w).2 !! tmp_name w = None /\
exists rest,
  trace (main w).2 =
  (trace w ++ [EvTempFile (tmp_name w);
               EvUrlRetrieve (strip arg) (tmp_name w);
               EvImageOpen (tmp_name w); EvUnlink (tmp_name w)] ++ rest)%list.
Proof.
intros Hargv Hurl Hf Hd Hnet Hne.
split; [exact (temporary_file_removed_after_fetch w prog arg data
                 Hargv Hurl Hf Hd Hnet Hne)|].
rewrite (main_url_fetched w prog arg Hargv data Hurl Hf Hd Hnet).
destruct (decode_rgba data) as [img|].
- destruct (save_icon_spec (ICON_PATH w) img
              (after_download (strip arg) data w))
    as (_ & _ & _ & [Hok|(_ & _ & _ & evs & Htr & _)]).
  + destruct Hok as (_ & _ & _ & Htr & _).
    eexists. rewrite Htr, after_download_trace, <- app_assoc. reflexivity.
  + eexists. rewrite Htr, after_download_trace, <- app_assoc. reflexivity.
- exists []. cbn [snd]. now rewrite after_download_trace, app_nil_r.
Qed.

End RunExtras.

(** ** The shape of the destination *)

Section Destination.

Lemma string_app_nil_r (a : string) : a ++ "" = a.
Proof.
induction a as [|x a IH]; [reflexivity|].
change (String x (a ++ "") = String x a). now rewrite IH.
Qed.

Lemma split_sep_not_nil (s : string) : split_sep s <> [].
Proof.
induction s as [|c s IH]; [discriminate|]. cbn [split_sep].
destruct (is_sep c); [discriminate|].
destruct (split_sep s); [contradiction | discriminate].
Qed.

(** Splitting at a separator splits the list of components. *)
Lemma split_sep_app (a b : string) :
split_sep (a ++ "/" ++ b) = (split_sep a ++ split_sep b)%list.
Proof.
induction a as [|c a IH]; [reflexivity|].
change (String c a ++ "/" ++ b) with (String c (a ++ "/" ++ b)).
cbn [split_sep]. rewrite IH.
destruct (is_sep c); [reflexivity|].
pose proof (split_sep_not_nil a) as Hne.
destruct (split_sep a) as [|h t]; [contradiction | reflexivity].
Qed.

Lemma endswith_sep_inv (s : string) :
endswith_sep s = true -> exists q, s = q ++ "/".
Proof.
induction s as [|c s IH]; [discriminate|].
destruct s as [|c' s'].
- cbn. unfold is_sep. intros Hc. apply Ascii.eqb_eq in Hc. subst c.
  now exists "".
- intros Hs. destruct (IH Hs) as [q Hq]. exists (String c q).
  change (String c q ++ "/") with (String c (q ++ "/")). now rewrite Hq.
Qed.

(** Joining a relative path onto anything puts a prefix before it that is
  empty or ends with a separator. *)
Lemma join_relative (a b : string) :
startswith b "/" = false ->
exists p, join a [b] = p ++ b /\ (p = "" \/ exists q, p = q ++ "/").
Proof.
intros Hb. unfold join, join_step. cbn [fold_left]. rewrite Hb. cbn [orb].
destruct (is_empty a) eqn:Ha.
- exists "". auto.
- destruct (endswith_sep a) eqn:He.
  + exists a. split; [reflexivity|]. right. now apply endswith_sep_inv.
  + exists (a ++ "/"). split; [now rewrite string_app_assoc|]. eauto.
Qed.

(** What [abspath] hands to [normpath] for the icon: the relative path of
  the icon after a prefix that is empty or ends with a separator. *)
Lemma icon_path_to_normalise (w : world) :
exists Q,
  out_path w = normpath (Q ++ icon_relpath) /\
  (Q = "" \/ exists q, Q = q ++ "/").
Proof.
unfold out_path, ICON_PATH, abspath. rewrite join_icon_components.
destruct (join_relative (dirname (script_file w)) icon_relpath eq_refl)
  as (p & -> & Hp).
destruct (isabs (p ++ icon_relpath)) eqn:Habs; [eauto|].
destruct (join_relative (cwd w) (p ++ icon_relpath) Habs)
  as (p' & -> & Hp').
exists (p' ++ p). rewrite string_app_assoc. split; [reflexivity|].
destruct Hp as [->|[q ->]].
- rewrite string_app_nil_r. exact Hp'.
- right. exists (p' ++ q). now rewrite string_app_assoc.
Qed.

(** A component that is a name is pushed. *)
Lemma normpath_step_name (n : nat) (comps : list string) (comp : string) :
String.eqb comp "" = false -> String.eqb comp "." = false ->
String.eqb comp ".." = false ->
normpath_step n comps comp = (comps ++ [comp])%list.
Proof. intros H1 H2 H3. unfold normpath_step. now rewrite H1, H2, H3. Qed.

Lemma string_concat_app (l1 l2 : list string) :
l2 <> [] ->
String.concat "/" (l1 ++ l2) =
match l1 with
| [] => String.concat "/" l2
| _ => String.concat "/" l1 ++ "/" ++ String.concat "/" l2
end.
Proof.
intros Hl2. induction l1 as [|x l1 IH]; [reflexivity|].
cbn [app String.concat].
destruct l1 as [|y l1].
- cbn [app]. destruct l2; [contradiction | reflexivity].
- cbn [app] in *. rewrite IH. now rewrite !string_app_assoc.
Qed.

Lemma repeat_sep_shape (n : nat) :
(n <= 2)%nat -> repeat_sep n = "" \/ exists q, repeat_sep n = q ++ "/".
Proof.
intros Hn. destruct n as [|[|[|n]]]; [now left| right..|lia].
- now exists "".
- now exists "/".
Qed.

(** Normalising such a path keeps the eight components of the icon's
  relative path but the first. *)
Lemma normpath_icon (Q : string) :
(Q = "" \/ exists q, Q = q ++ "/") ->
exists Z,
  normpath (Q ++ icon_relpath) = Z ++ icon_tail /\
  (Z = "" \/ exists z, Z = z ++ "/").
Proof.
intros HQ. unfold normpath.
rewrite is_empty_app by reflexivity.
set (n := if startswith (Q ++ icon_relpath) "/" then _ else _).
assert (Hn : (n <= 2)%nat)
  by (subst n; repeat match goal with |- context [if ?c then _ else _] =>
                                        destruct c end; lia).
assert (Hsplit : exists pre,
           split_sep (Q ++ icon_relpath) =
           (pre ++ [".."; "frontend"; "ios"; "App"; "App"; "Assets.xcassets";
                    "AppIcon.appiconset"; "AppIcon-512@2x.png"])%list).
{ destruct HQ as [->|[q ->]].
  - now exists [].
  - exists (split_sep q). rewrite string_app_assoc, split_sep_app.
    reflexivity. }
destruct Hsplit as [pre ->]. rewrite fold_left_app.
set (S0 := fold_left (normpath_step n) pre []).
cbn [fold_left].
set (S1 := normpath_step n S0 "..").
rewrite !normpath_step_name by reflexivity.
rewrite <- !app_assoc. cbn [app].
rewrite string_concat_app by discriminate.
change (String.concat "/" ["frontend"; "ios"; "App"; "App"; "Assets.xcassets";
                           "AppIcon.appiconset"; "AppIcon-512@2x.png"])
  with icon_tail.
destruct S1 as [|x S1].
- rewrite is_empty_app by reflexivity.
  exists (repeat_sep n). split; [reflexivity|]. now apply repeat_sep_shape.
- rewrite (is_empty_app (repeat_sep n) _
             (is_empty_app (String.concat "/" (x :: S1)) ("/" ++ icon_tail)
                eq_refl)).
  exists (repeat_sep n ++ String.concat "/" (x :: S1) ++ "/").
  split.
  + now rewrite !string_app_assoc.
  + right. exists (repeat_sep n ++ String.concat "/" (x :: S1)).
    now rewrite string_app_assoc.
Qed.

Lemma out_path_shape (w : world) :
exists Z, out_path w = Z ++ icon_tail /\ (Z = "" \/ exists z, Z = z ++ "/").
Proof.
destruct (icon_path_to_normalise w) as (Q & -> & HQ).
now apply normpath_icon.
Qed.

Lemma upto_last_sep_name (a name : string) :
upto_last_sep name = "" -> upto_last_sep (a ++ "/" ++ name) = a ++ "/".
Proof.
intros Hname. induction a as [|c a IH].
- change ("" ++ "/" ++ name) with (String sep name).
  cbn [upto_last_sep]. rewrite Hname. reflexivity.
- change (String c a ++ "/" ++ name) with (String c (a ++ "/" ++ name)).
  cbn [upto_last_sep]. rewrite IH.
  rewrite is_empty_app by reflexivity. reflexivity.
Qed.

Lemma all_sep_app (a b : string) : all_sep (a ++ b) = all_sep a && all_sep b.
Proof.
induction a as [|c a IH]; [reflexivity|].
change (String c a ++ b) with (String c (a ++ b)).
cbn [all_sep]. rewrite IH. now rewrite andb_assoc.
Qed.

Lemma rstrip_sep_app (a b : string) :
is_empty (rstrip_sep b) = false -> rstrip_sep (a ++ b) = a ++ rstrip_sep b.
Proof.
intros Hb. induction a as [|c a IH]; [reflexivity|].
change (String c a ++ b) with (String c (a ++ b)).
cbn [rstrip_sep]. rewrite IH, is_empty_app by exact Hb.
now rewrite andb_false_r.
Qed.

(** The directory of a path that ends in the icon's tail ends in the
  directory of the asset catalogue. *)
Lemma dirname_icon (Z : string) :
dirname (Z ++ icon_tail) = Z ++ icon_dir_tail.
Proof.
change icon_tail with (icon_dir_tail ++ "/" ++ "AppIcon-512@2x.png").
rewrite <- string_app_assoc. unfold dirname.
rewrite upto_last_sep_name by reflexivity.
rewrite string_app_assoc.
rewrite is_empty_app by reflexivity.
rewrite all_sep_app.
change (all_sep (icon_dir_tail ++ "/")) with false.
rewrite andb_false_r. cbn [negb andb].
rewrite rstrip_sep_app by reflexivity. reflexivity.
Qed.

Lemma normpath_isabs (p : string) :
isabs p = true -> isabs (normpath p) = true.
Proof.
intros Hp. destruct (isabs_inv p Hp) as [r ->]. unfold normpath.
cbn [is_empty]. fold (isabs (String sep r)). rewrite Hp.
destruct (_ && _); cbn [repeat_sep]; apply isabs_cons.
Qed.

Lemma abspath_isabs_of_cwd (cwd p : string) :
isabs cwd = true -> isabs (abspath cwd p) = true.
Proof.
intros Hcwd. unfold abspath. apply normpath_isabs.
destruct (isabs p) eqn:Hp; [exact Hp | now apply join_isabs].
Qed.

Lemma parents_from_length (acc s p : string) :
p ∈ parents_from acc s ->
(String.length acc <= String.length p
 < String.length acc + String.length s)%nat.
Proof.
revert acc. induction s as [|c s IH]; intros acc Hp.
- inversion Hp.
- cbn [parents_from String.length] in *.
  apply elem_of_app in Hp as [Hp|Hp].
  + destruct (is_sep c && negb (is_empty acc)); [|inversion Hp].
    apply elem_of_cons in Hp as [->|Hp]; [lia | inversion Hp].
  + apply IH in Hp. rewrite string_length_app in Hp.
    cbn [String.length] in Hp. lia.
Qed.

(** The directories above a path are shorter than the path. *)
Lemma parents_shorter (name p : string) :
p ∈ parents name -> (String.length p < String.length name)%nat.
Proof.
intros Hp. apply parents_from_length in Hp. cbn [String.length] in Hp. lia.
Qed.

(** The destination is none of the directories [makedirs] walks. *)
Lemma out_path_not_in_chain (w : world) (p : string) :
p ∈ parents (dirname (out_path w)) \/ p = dirname (out_path w) ->
p <> out_path w.
Proof.
destruct (out_path_shape w) as (Z & HZ & _).
rewrite HZ, dirname_icon.
assert (Hlen : (String.length (Z ++ icon_dir_tail)
                < String.length (Z ++ icon_tail))%nat).
{ rewrite !string_length_app.
  change (String.length icon_dir_tail) with 55%nat.
  change (String.length icon_tail) with 74%nat. lia. }
intros [Hp| ->] Heq.
- apply parents_shorter in Hp. rewrite Heq in Hp. lia.
- rewrite Heq in Hlen. lia.
Qed.

End Destination.

(** ** Runs that return *)

Section Success.
Context `{Codec}.

Lemma gset_union_absorb (x : string) (X : gset string) :
x ∈ X -> {[x]} ∪ X = X.
Proof. intros Hx. now apply subseteq_union_1_L, singleton_subseteq_l. Qed.

Lemma gset_union_swap (x : string) (A B : gset string) :
A ∪ ({[x]} ∪ B) = {[x]} ∪ A ∪ B.
Proof. now rewrite (assoc_L (∪)), (comm_L (∪) A {[x]}). Qed.

Lemma mkdir_chain_returns (names : list string) (w : world) :
(forall p, p ∈ names -> p ∈ dirs w \/ files w !! p = None) ->
mkdir_chain names w = (Return tt, set_dirs (list_to_set names ∪ dirs w) w).
Proof.
revert w. induction names as [|n names IH]; intros w Hfree.
- cbn [mkdir_chain list_to_set]. unfold ret.
  rewrite (left_id_L ∅ (∪)). now rewrite set_dirs_id.
- cbn [mkdir_chain]. unfold bind, mkdir_exist_ok at 1.
  destruct (bool_decide (n ∈ dirs w)) eqn:Hn.
  + apply bool_decide_eq_true in Hn.
    rewrite IH by (intros p Hp; apply Hfree; now right).
    cbn [list_to_set].
    rewrite <- (assoc_L (∪)), (gset_union_absorb n); [reflexivity|].
    apply elem_of_union. now right.
  + apply bool_decide_eq_false in Hn.
    destruct (Hfree n ltac:(now left)) as [Hd|Hf]; [contradiction|].
    rewrite Hf.
    rewrite bool_decide_eq_false_2 by (intros [? ?]; discriminate).
    rewrite IH.
    * cbn [list_to_set set_dirs dirs]. now rewrite gset_union_swap.
    * intros p Hp. cbn [set_dirs dirs files].
      destruct (Hfree p ltac:(now right)) as [Hd|Hf']; [left | now right].
      apply elem_of_union. now right.
Qed.

(** [makedirs] returns when no regular file is in the way, and makes
  exactly the directories that are missing. *)
Lemma os_makedirs_returns (name : string) (w : world) :
(forall p, p ∈ parents name \/ p = name ->
           p ∈ dirs w \/ files w !! p = None) ->
os_makedirs name w =
(Return tt,
 set_dirs ({[name]} ∪ list_to_set (parents name) ∪ dirs w)
   (log (EvMakedirs name) w)).
Proof.
intros Hfree. unfold os_makedirs, bind.
rewrite mkdir_chain_returns by (intros p Hp; apply Hfree; now left).
unfold mkdir_exist_ok. cbn [set_dirs log dirs files].
destruct (bool_decide (name ∈ list_to_set (parents name) ∪ dirs w)) eqn:Hn.
- apply bool_decide_eq_true in Hn.
  now rewrite <- (assoc_L (∪)), (gset_union_absorb name _ Hn).
- apply bool_decide_eq_false in Hn.
  destruct (Hfree name ltac:(now right)) as [Hd|Hf].
  { exfalso. apply Hn, elem_of_union. now right. }
  rewrite Hf.
  rewrite bool_decide_eq_false_2 by (intros [? ?]; discriminate).
  now rewrite (assoc_L (∪)).
Qed.

Local Opaque resize abspath strip dirname ICON_PATH os_makedirs startswith
String.append parents.

Local Abbreviation save_icon icon img :=
(out_path0 <- os_path_abspath icon ;;
 os_makedirs (dirname out_path0) ;;
 Image_save (resize img (1024, 1024)%Z) out_path0 ;;
 print ("Saved 1024x1024 app icon to " ++ out_path0)).

(** The last five lines, when nothing is in the way. *)
Lemma save_icon_run (icon : string) (img : image) (w1 : world) :
let out := abspath (cwd w1) icon in
let d := dirname out in
(forall p, p ∈ parents d \/ p = d -> p ∈ dirs w1 \/ files w1 !! p = None) ->
(forall p, p ∈ parents d \/ p = d -> p <> out) ->
out ∉ dirs w1 ->
save_icon icon img w1 =
(Return tt,
 set_stdout (stdout w1 ++ ("Saved 1024x1024 app icon to " ++ out) ++ newline)
   (set_files (<[out := encode_png (resize img (1024, 1024)%Z)]> (files w1))
      (log (EvSave out)
         (set_dirs ({[d]} ∪ list_to_set (parents d) ∪ dirs w1)
            (log (EvMakedirs d) w1))))).
Proof.
intros out d Hfree Hchain Hnd. run. fold out. fold d.
rewrite (os_makedirs_returns d w1 Hfree). fields.
rewrite bool_decide_eq_false_2.
2:{ intros Hin. apply elem_of_union in Hin as [Hin|Hin]; [|contradiction].
    apply elem_of_union in Hin as [Hin|Hin].
    - apply elem_of_singleton in Hin. symmetry in Hin. revert Hin.
      apply Hchain. now right.
    - apply elem_of_list_to_set in Hin. revert Hin.
      intros Hin. apply (Hchain out); [now left | reflexivity]. }
rewrite bool_decide_eq_true_2.
2:{ apply elem_of_union. left. apply elem_of_union. left.
    now apply elem_of_singleton. }
reflexivity.
Qed.

(** An argument that can be acquired, a destination that is not a
  directory, no regular file where a directory has to be: the run
  returns, writes the icon, and makes the directories that are missing
  and no other. *)
Lemma main_succeeds (w : world) (prog arg : string) (img : image)
  (evs : list event) :
sys_argv w = [prog; arg] ->
acquired w (strip arg) img evs ->
(forall p, p ∈ parents (dirname (out_path w)) \/ p = dirname (out_path w) ->
           p ∈ dirs w \/ files w !! p = None) ->
out_path w ∉ dirs w ->
(main w).1 = Return tt /\
files (main w).2 =
  <[out_path w := encode_png (resize img (1024, 1024)%Z)]> (files w) /\
dirs (main w).2 =
  {[dirname (out_path w)]} ∪ list_to_set (parents (dirname (out_path w)))
  ∪ dirs w.
Proof.
intros Hargv Hacq Hfree Hnd.
pose proof (out_path_not_in_chain w) as Hchain.
inversion Hacq as [data Hurl Hf Hd Hnet Hdec Hevs|data Hurl Hfile Hdec Hevs];
  subst evs.
- rewrite (main_url_fetched w prog arg Hargv data Hurl Hf Hd Hnet), Hdec.
  rewrite (save_icon_run (ICON_PATH w) img (after_download (strip arg) data w)).
  + fields. rewrite (after_download_files w arg data Hf).
    repeat split; reflexivity.
  + rewrite (after_download_files w arg data Hf). exact Hfree.
  + exact Hchain.
  + exact Hnd.
- rewrite (main_local_decoded w prog arg Hargv data img Hurl Hfile Hdec).
  match goal with
  | |- context [bind _ _ ?w1] =>
      rewrite (save_icon_run (ICON_PATH w) img w1)
  end.
  + fields. repeat split; reflexivity.
  + exact Hfree.
  + exact Hchain.
  + exact Hnd.
Qed.

End Success.

(** ** What a run is given stays as it is *)

Lemma same_env_refl (w : world) : same_env w w.
Proof. now repeat split. Qed.

Lemma same_env_trans (w1 w2 w3 : world) :
  same_env w1 w2 -> same_env w2 w3 -> same_env w1 w3.
Proof.
  intros (? & ? & ? & ? & ? & ?) (? & ? & ? & ? & ? & ?).
  repeat split; congruence.
Qed.

Ltac keeps_step :=
  first [ apply same_env_refl
        | unfold same_env; fields; repeat split; reflexivity ].

Section KeepsEnv.
Context `{Codec}.

Lemma keeps_ret {A} (a : A) : keeps_env (ret a).
Proof. intros w. apply same_env_refl. Qed.

Lemma keeps_sys_exit {A} (c : Z) : keeps_env (@sys_exit A c).
Proof. intros w. keeps_step. Qed.

Lemma keeps_bind {A B} (m : M A) (k : A -> M B) :
keeps_env m -> (forall a, keeps_env (k a)) -> keeps_env (bind m k).
Proof.
intros Hm Hk w. unfold bind. specialize (Hm w).
destruct (m w) as [[a|c|e] w1]; cbn [snd] in *; [|exact Hm..].
exact (same_env_trans _ _ _ Hm (Hk a w1)).
Qed.

Lemma keeps_when (cond : bool) (body : M unit) :
keeps_env body -> keeps_env (when cond body).
Proof. destruct cond; [auto | intros _; apply keeps_ret]. Qed.

Lemma keeps_try_finally {A} (body : M A) (handler : M unit) :
keeps_env body -> keeps_env handler -> keeps_env (try_finally body handler).
Proof.
intros Hb Hh w. unfold try_finally. specialize (Hb w).
destruct (body w) as [r w1]. cbn [snd] in Hb. specialize (Hh w1).
destruct (handler w1) as [[[]|c|e] w2]; cbn [snd] in *;
  exact (same_env_trans _ _ _ Hb Hh).
Qed.

Lemma keeps_print (s : string) : keeps_env (print s).
Proof. intros w. unfold print. keeps_step. Qed.

Lemma keeps_print_stderr (s : string) : keeps_env (print_stderr s).
Proof. intros w. unfold print_stderr. keeps_step. Qed.

Lemma keeps_NamedTemporaryFile (suffix : string) :
keeps_env (NamedTemporaryFile suffix).
Proof.
intros w. unfold NamedTemporaryFile. fields.
destruct (_ || _); keeps_step.
Qed.

Lemma keeps_close (f : string) : keeps_env (close f).
Proof. intros w. unfold close. keeps_step. Qed.

Lemma keeps_urlretrieve (url filename : string) :
keeps_env (urlretrieve url filename).
Proof.
intros w. unfold urlretrieve. fields.
destruct (net w url); keeps_step.
Qed.

Lemma keeps_Image_open (path : string) :
keeps_env (Image_open_convert_RGBA path).
Proof.
intros w. unfold Image_open_convert_RGBA. fields.
destruct (files w !! path) as [data|]; [|keeps_step].
destruct (decode_rgba data); keeps_step.
Qed.

Lemma keeps_os_unlink (path : string) : keeps_env (os_unlink path).
Proof.
intros w. unfold os_unlink. fields.
destruct (files w !! path); keeps_step.
Qed.

Lemma keeps_os_path_abspath (p : string) : keeps_env (os_path_abspath p).
Proof. intros w. unfold os_path_abspath. keeps_step. Qed.

Lemma keeps_os_path_isfile (path : string) : keeps_env (os_path_isfile path).
Proof. intros w. unfold os_path_isfile. keeps_step. Qed.

Lemma keeps_mkdir_exist_ok (e : exn) (name : string) :
keeps_env (mkdir_exist_ok e name).
Proof.
intros w. unfold mkdir_exist_ok.
destruct (bool_decide (name ∈ dirs w)); [keeps_step|].
destruct (bool_decide (is_Some (files w !! name))); keeps_step.
Qed.

Lemma keeps_mkdir_chain (names : list string) : keeps_env (mkdir_chain names).
Proof.
induction names as [|n names IH]; cbn [mkdir_chain].
- apply keeps_ret.
- apply keeps_bind; [apply keeps_mkdir_exist_ok | intros _; exact IH].
Qed.

Lemma keeps_os_makedirs (name : string) : keeps_env (os_makedirs name).
Proof.
intros w. unfold os_makedirs.
apply (same_env_trans _ (log (EvMakedirs name) w)); [keeps_step|].
apply (keeps_bind (mkdir_chain (parents name))
         (fun _ => mkdir_exist_ok FileExistsError name)).
- apply keeps_mkdir_chain.
- intros _. apply keeps_mkdir_exist_ok.
Qed.

Lemma keeps_Image_save (im : image) (path : string) :
keeps_env (Image_save im path).
Proof.
intros w. unfold Image_save. fields.
destruct (bool_decide (path ∈ dirs w)); [keeps_step|].
destruct (negb _); keeps_step.
Qed.

Lemma keeps_with_NamedTemporaryFile {A} (suffix : string)
  (body : string -> M A) :
(forall f, keeps_env (body f)) ->
keeps_env (with_NamedTemporaryFile suffix body).
Proof.
intros Hb. apply keeps_bind; [apply keeps_NamedTemporaryFile|].
intros f. apply keeps_try_finally; [apply Hb | apply keeps_close].
Qed.

End KeepsEnv.

Create HintDb keeps.
#[export] Hint Resolve keeps_ret keeps_sys_exit keeps_print keeps_print_stderr
  keeps_NamedTemporaryFile keeps_close keeps_urlretrieve keeps_Image_open
  keeps_os_unlink keeps_os_path_abspath keeps_os_path_isfile
  keeps_os_makedirs keeps_Image_save : keeps.

Ltac keeps :=
  repeat first
    [ solve [auto with keeps]
    | apply keeps_bind; [|intros ?]
    | apply keeps_when
    | apply keeps_try_finally
    | apply keeps_with_NamedTemporaryFile; intros ?
    | match goal with
      | |- keeps_env (if ?c then _ else _) => destruct c
      end ].

Section MainKeepsEnv.
Context `{Codec}.

(** [main] changes neither its arguments, nor the place of the script, nor
  the working directory, nor the network. *)
Lemma main_keeps_env (w : world) : same_env w (main w).2.
Proof.
unfold main.
match goal with
| |- same_env w (?body w).2 =>
    assert (Hkeeps : keeps_env body) by keeps; exact (Hkeeps w)
end.
Qed.

Lemma out_path_same_env (w1 w2 : world) :
same_env w1 w2 -> out_path w2 = out_path w1.
Proof.
intros (_ & Hfile & Hcwd & _). unfold out_path, ICON_PATH.
now rewrite Hfile, Hcwd.
Qed.

End MainKeepsEnv.

(** ** When a run returns, and what a second run does *)

Section Rerun.
Context `{Codec}.



Local Opaque resize abspath strip dirname ICON_PATH os_makedirs startswith
String.append parents.

Local Abbreviation save_icon icon img :=
(out_path0 <- os_path_abspath icon ;;
 os_makedirs (dirname out_path0) ;;
 Image_save (resize img (1024, 1024)%Z) out_path0 ;;
 print ("Saved 1024x1024 app icon to " ++ out_path0)).



Local Opaque main.


(** X7. After a run that returned, a second run with the same argument
  returns too and leaves every file and every directory as the first run
  left them, provided the source is not the icon itself (and, for a URL,
  the temporary name is not one of the directories of the icon). *)
Theorem second_run_changes_nothing (w : world) :
(main w).1 = Return tt ->
(if is_url (strip (nth 1 (sys_argv w) ""))
 then tmp_name w <> out_path w /\ tmp_name w ∉ dirs (main w).2
 else abspath (cwd w) (strip (nth 1 (sys_argv w) "")) <> out_path w) ->
(main (main w).2).1 = Return tt /\
files (main (main w).2).2 = files (main w).2 /\
dirs (main (main w).2).2 = dirs (main w).2.
Proof.
intros Hret Hsrc. set (w1 := (main w).2) in *.
destruct (main_returns_inv w Hret)
  as (prog & arg & img & evs & Hargv & Hacq & Hfiles & _ & _ & _ & Hsub
      & Hdir & Hpar & Hnd).
pose proof (main_keeps_env w) as (Ha & Hs & Hc & Hp & Ht & Hn).
assert (Hout : out_path w1 = out_path w).
{ apply out_path_same_env. exact (main_keeps_env w). }
fold w1 in Hfiles, Hsub, Hdir, Hpar, Hnd, Ha, Hs, Hc, Hp, Ht, Hn.
rewrite Hargv in Hsrc. cbn [nth] in Hsrc.
assert (Hacq1 : exists evs1, acquired w1 (strip arg) img evs1).
{ inversion Hacq as [data Hurl Hf Hd Hnet Hdec Hevs
                    |data Hurl Hfile Hdec Hevs]; subst evs;
    rewrite Hurl in Hsrc.
  - destruct Hsrc as [Hne Hnd1]. eexists.
    apply (acquired_url w1 (strip arg) img data); try assumption.
    + rewrite <- Ht, Hfiles. now rewrite lookup_insert_ne by congruence.
    + now rewrite <- Ht.
    + now rewrite <- Hn.
  - eexists.
    apply (acquired_local w1 (strip arg) img data); try assumption.
    rewrite <- Hc, Hfiles. now rewrite lookup_insert_ne by congruence. }
destruct Hacq1 as (evs1 & Hacq1).
destruct (main_succeeds w1 prog arg img evs1) as (Hret1 & Hfiles1 & Hdirs1).
- now rewrite <- Ha.
- exact Hacq1.
- rewrite Hout. intros p [Hp1 | ->]; left; auto.
- now rewrite Hout.
- split; [exact Hret1|]. split.
  + rewrite Hfiles1, Hout, Hfiles. apply insert_insert_eq.
  + rewrite Hdirs1, Hout. apply subseteq_union_1_L.
    intros x Hx. apply elem_of_union in Hx as [Hx|Hx].
    * apply elem_of_singleton in Hx. now subst x.
    * apply elem_of_list_to_set in Hx. auto.
Qed.

(** X13.  The image is decoded before anything is made: when the argument
  cannot be acquired (wrong number of arguments, no such file, a fetch
  that fails, data that is no image) the run does not return, no
  directory is created, and neither [makedirs] nor [save] is called. *)
Theorem no_directory_before_the_image_is_decoded (w : world) :
(forall prog arg img evs,
   sys_argv w = [prog; arg] -> ~ acquired w (strip arg) img evs) ->
(main w).1 <> Return tt /\
dirs (main w).2 = dirs w /\
exists evs, trace (main w).2 = (trace w ++ evs)%list /\
            Forall (fun e => is_output_event e = false) evs.
Proof.
intros Hnone.
destruct (decide (length (sys_argv w) = 2%nat)) as [Hlen|Hlen].
2:{ rewrite (main_usage w Hlen). split; [discriminate|].
    split; [reflexivity|]. exists []. fields.
    now rewrite app_nil_r. }
destruct (sys_argv w) as [|prog [|arg [|? ?]]] eqn:Hargv; try discriminate.
clear Hlen. specialize (Hnone prog arg).
destruct (is_url (strip arg)) eqn:Hurl.
- destruct (files w !! tmp_name w) as [old|] eqn:Hf.
  { rewrite (main_url_tmp_taken w prog arg Hargv Hurl)
      by (left; rewrite Hf; eauto).
    split; [discriminate|]. split; [reflexivity|].
    exists [EvTempFile (tmp_name w)]. fields.
    split; [reflexivity|]. repeat constructor. }
  destruct (decide (tmp_name w ∈ dirs w)) as [Hd|Hd].
  { rewrite (main_url_tmp_taken w prog arg Hargv Hurl) by now right.
    split; [discriminate|]. split; [reflexivity|].
    exists [EvTempFile (tmp_name w)]. fields.
    split; [reflexivity|]. repeat constructor. }
  destruct (net w (strip arg)) as [data|] eqn:Hnet.
  + rewrite (main_url_fetched w prog arg Hargv data Hurl Hf Hd Hnet).
    destruct (decode_rgba data) as [img|] eqn:Hdec.
    { exfalso. eapply (Hnone img); [reflexivity|].
      exact (acquired_url w (strip arg) img data Hurl Hf Hd Hnet Hdec). }
    cbn [fst snd]. split; [discriminate|].
    split; [unfold after_download; fields; reflexivity|].
    eexists. rewrite after_download_trace.
    split; [reflexivity|]. repeat constructor.
  + rewrite (main_url_fetch_fails w prog arg Hargv Hurl Hf Hd Hnet).
    split; [discriminate|]. split; [reflexivity|].
    exists [EvTempFile (tmp_name w);
            EvUrlRetrieve (strip arg) (tmp_name w)]. fields.
    split; [now rewrite <- app_assoc|]. repeat constructor.
- destruct (files w !! abspath (cwd w) (strip arg)) as [data|] eqn:Hfile.
  + destruct (decode_rgba data) as [img|] eqn:Hdec.
    { exfalso. eapply (Hnone img); [reflexivity|].
      exact (acquired_local w (strip arg) img data Hurl Hfile Hdec). }
    rewrite (main_local_undecodable w prog arg Hargv data Hurl Hfile Hdec).
    split; [discriminate|]. split; [reflexivity|].
    exists [EvIsFile (abspath (cwd w) (strip arg));
            EvImageOpen (abspath (cwd w) (strip arg))]. fields.
    split; [now rewrite <- app_assoc|]. repeat constructor.
  + rewrite (main_local_not_a_file w prog arg Hargv Hurl Hfile).
    split; [discriminate|]. split; [reflexivity|].
    exists [EvIsFile (abspath (cwd w) (strip arg))]. fields.
    split; [reflexivity|]. repeat constructor.
Qed.

End Rerun.

(** ** Where the icon goes *)

Section DestinationExtras.

(** X8.  Wherever the script lies and whatever the working directory is,
  the destination is a directory prefix followed by
  [frontend/ios/App/App/Assets.xcassets/AppIcon.appiconset/AppIcon-512@2x.png]:
  the [..] of [ICON_PATH] is resolved and does not show in the path.  The
  directory that [makedirs] is asked for is that prefix followed by
  [frontend/ios/App/App/Assets.xcassets/AppIcon.appiconset], and the
  destination is none of the directories [makedirs] walks. *)
Theorem destination_ends_in_the_asset_catalogue (w : world) :
exists prefix,
  out_path w = prefix ++ icon_tail /\
  (prefix = "" \/ exists d, prefix = d ++ "/") /\
  dirname (out_path w) = prefix ++ icon_dir_tail /\
  (out_path w ∉ parents (dirname (out_path w))) /\
  out_path w <> dirname (out_path w).
Proof.
destruct (out_path_shape w) as (Z & HZ & Hshape).
exists Z. split; [exact HZ|]. split; [exact Hshape|]. split.
- rewrite HZ. apply dirname_icon.
- split.
  + intros Hin. apply (out_path_not_in_chain w (out_path w)); auto.
  + intros Heq. apply (out_path_not_in_chain w (dirname (out_path w))); auto.
Qed.

(** X9.  With an absolute working directory the destination is an absolute
  path, wherever the script lies, and so is the path a local argument is
  looked up at. *)
Theorem destination_is_absolute (w : world) (src : string) :
isabs (cwd w) = true ->
isabs (out_path w) = true /\ isabs (abspath (cwd w) src) = true.
Proof.
intros Hcwd. split; apply abspath_isabs_of_cwd; exact Hcwd.
Qed.

End DestinationExtras.

(** ** More on resampling *)

Section ResamplingExtras.
Local Open Scope Z_scope.

Lemma scale_coord_same_size (n x : Z) : 0 < n -> scale_coord n n x = x.
Proof.
intros Hn. unfold scale_coord.
symmetry. apply (Z.div_unique _ _ x n); [left; lia | ring].
Qed.

Lemma scale_coord_mono (src dst x x' : Z) :
0 <= src -> 0 < dst -> x <= x' ->
scale_coord src dst x <= scale_coord src dst x'.
Proof.
intros Hs Hd Hx. unfold scale_coord. apply Z.div_le_mono; nia.
Qed.

Lemma scale_coord_first (src dst : Z) :
0 < src <= dst -> scale_coord src dst 0 = 0.
Proof.
intros Hs. unfold scale_coord. apply Z.div_small. lia.
Qed.

Lemma scale_coord_last (src dst : Z) :
0 < src <= dst -> scale_coord src dst (dst - 1) = src - 1.
Proof.
intros Hs. unfold scale_coord.
symmetry. apply (Z.div_unique _ _ (src - 1) (2 * dst - src)); [left; lia|].
ring.
Qed.

Lemma scale_coord_step (src dst x : Z) :
0 < src <= dst -> 0 <= x ->
scale_coord src dst (x + 1) <= scale_coord src dst x + 1.
Proof.
intros Hs Hx. unfold scale_coord.
replace ((2 * x + 1) * src / (2 * dst) + 1)
  with (((2 * x + 1) * src + 1 * (2 * dst)) / (2 * dst))
  by (rewrite Z.div_add by lia; reflexivity).
apply Z.div_le_mono; nia.
Qed.

(** Between the first and the last output coordinate the source coordinate
  takes every value on its way. *)
Lemma scale_coord_onto_upto (src dst : Z) (n : nat) (k : Z) :
0 < src <= dst ->
0 <= k <= scale_coord src dst (Z.of_nat n) ->
exists x, 0 <= x <= Z.of_nat n /\ scale_coord src dst x = k.
Proof.
intros Hs. induction n as [|n IH]; intros Hk.
- exists 0. change (Z.of_nat 0) with 0 in *.
  rewrite scale_coord_first in * by exact Hs. lia.
- rewrite Nat2Z.inj_succ in *. unfold Z.succ in *.
  destruct (Z_le_gt_dec k (scale_coord src dst (Z.of_nat n))) as [Hle|Hgt].
  + destruct (IH ltac:(lia)) as (x & Hx & Hsx). exists x. split; [lia|exact Hsx].
  + exists (Z.of_nat n + 1). split; [lia|].
    pose proof (scale_coord_step src dst (Z.of_nat n) Hs ltac:(lia)). lia.
Qed.

Lemma scale_coord_onto (src dst k : Z) :
0 < src <= dst -> 0 <= k < src ->
exists x, 0 <= x < dst /\ scale_coord src dst x = k.
Proof.
intros Hs Hk.
destruct (scale_coord_onto_upto src dst (Z.to_nat (dst - 1)) k Hs)
  as (x & Hx & Hsx).
- rewrite Z2Nat.id by lia. rewrite scale_coord_last by exact Hs. lia.
- rewrite Z2Nat.id in Hx by lia. exists x. split; [lia|exact Hsx].
Qed.

(** X10.  An image that is 1024x1024 already goes through the resize
  unchanged: the result has the same pixel at every coordinate, and none
  outside. *)
Theorem resize_of_full_size_icon (im : image) (x y : Z) :
wf_image im -> xsize im = 1024 -> ysize im = 1024 ->
getpixel (resize im (1024, 1024)) x y = getpixel im x y.
Proof.
intros Hwf Hw Hh.
destruct (decide (0 <= x < 1024 /\ 0 <= y < 1024)) as [[Hx Hy]|Hout].
- rewrite getpixel_resize by assumption.
  rewrite Hw, Hh, !scale_coord_same_size by lia.
  destruct (getpixel_is_Some im x y Hwf) as [p Hp]; [lia..|].
  now rewrite Hp.
- unfold getpixel. rewrite Hw, Hh. cbn [resize xsize ysize].
  destruct (0 <=? x) eqn:E1; [|reflexivity].
  destruct (x <? 1024) eqn:E2; [|reflexivity].
  destruct (0 <=? y) eqn:E3; [|reflexivity].
  destruct (y <? 1024) eqn:E4; [|reflexivity].
  exfalso. apply Hout. lia.
Qed.

(** X11.  Upscaling loses nothing and keeps the order: for a source no
  larger than 1024 in either direction every source pixel is the value of
  at least one output pixel, and an output pixel further right or further
  down never comes from a source pixel further left or further up. *)
Theorem upscaling_keeps_every_source_pixel (im : image) (sx sy : Z) :
wf_image im -> xsize im <= 1024 -> ysize im <= 1024 ->
0 <= sx < xsize im -> 0 <= sy < ysize im ->
(exists x y, 0 <= x < 1024 /\ 0 <= y < 1024 /\
             scale_coord (xsize im) 1024 x = sx /\
             scale_coord (ysize im) 1024 y = sy /\
             getpixel (resize im (1024, 1024)) x y = getpixel im sx sy) /\
(forall x x', x <= x' ->
   scale_coord (xsize im) 1024 x <= scale_coord (xsize im) 1024 x') /\
(forall y y', y <= y' ->
   scale_coord (ysize im) 1024 y <= scale_coord (ysize im) 1024 y').
Proof.
intros Hwf Hw Hh Hsx Hsy. split; [|split].
- destruct (scale_coord_onto (xsize im) 1024 sx) as (x & Hx & Hfx); [lia..|].
  destruct (scale_coord_onto (ysize im) 1024 sy) as (y & Hy & Hfy); [lia..|].
  exists x, y. repeat (split; [assumption|]).
  rewrite getpixel_resize, Hfx, Hfy by assumption.
  destruct (getpixel_is_Some im sx sy Hwf Hsx Hsy) as [p Hp].
  now rewrite Hp.
- intros x x' Hle. apply scale_coord_mono; lia.
- intros y y' Hle. apply scale_coord_mono; lia.
Qed.

End ResamplingExtras.

(** ** White space around the argument *)

Section Padding.
Context `{Codec}.

Lemma all_space_rstrip (r : string) : all_space r = true -> rstrip r = "".
Proof.
induction r as [|c r IH]; [reflexivity|]. cbn [all_space rstrip].
intros Hr. apply andb_true_iff in Hr as [Hc Hr].
now rewrite (IH Hr), Hc.
Qed.

Lemma rstrip_app_space (s r : string) :
all_space r = true -> rstrip (s ++ r) = rstrip s.
Proof.
intros Hr. induction s as [|c s IH].
- now apply all_space_rstrip.
- change (String c s ++ r) with (String c (s ++ r)).
  cbn [rstrip]. now rewrite IH.
Qed.

Lemma all_space_lstrip (r : string) : all_space r = true -> lstrip r = "".
Proof.
induction r as [|c r IH]; [reflexivity|]. cbn [all_space lstrip].
intros Hr. apply andb_true_iff in Hr as [Hc Hr].
now rewrite Hc, (IH Hr).
Qed.

Lemma lstrip_app_space (l s : string) :
all_space l = true -> lstrip (l ++ s) = lstrip s.
Proof.
induction l as [|c l IH]; [reflexivity|]. cbn [all_space].
intros Hl. apply andb_true_iff in Hl as [Hc Hl].
change (String c l ++ s) with (String c (l ++ s)).
cbn [lstrip]. now rewrite Hc, (IH Hl).
Qed.

Lemma strip_padded (l s r : string) :
all_space l = true -> all_space r = true -> strip (l ++ s ++ r) = strip s.
Proof.
intros Hl Hr. unfold strip. rewrite (lstrip_app_space l _ Hl).
induction s as [|c s IH].
- change ("" ++ r) with r. now rewrite (all_space_lstrip r Hr).
- change (String c s ++ r) with (String c (s ++ r)).
  cbn [lstrip]. destruct (isspace c); [exact IH|].
  change (String c (s ++ r)) with (String c s ++ r).
  now apply rstrip_app_space.
Qed.

(** X12.  White space around the argument, any amount of it on either
  side, makes no difference: the run ends the same way and leaves the
  same files, directories, output and calls as the run on the bare
  argument. *)
Theorem padding_is_ignored (w : world) (prog arg l r : string) :
all_space l = true -> all_space r = true ->
(main (set_argv [prog; l ++ arg ++ r] w)).1
  = (main (set_argv [prog; arg] w)).1 /\
files (main (set_argv [prog; l ++ arg ++ r] w)).2
  = files (main (set_argv [prog; arg] w)).2 /\
dirs (main (set_argv [prog; l ++ arg ++ r] w)).2
  = dirs (main (set_argv [prog; arg] w)).2 /\
stdout (main (set_argv [prog; l ++ arg ++ r] w)).2
  = stdout (main (set_argv [prog; arg] w)).2 /\
stderr (main (set_argv [prog; l ++ arg ++ r] w)).2
  = stderr (main (set_argv [prog; arg] w)).2 /\
trace (main (set_argv [prog; l ++ arg ++ r] w)).2
  = trace (main (set_argv [prog; arg] w)).2.
Proof.
intros Hl Hr.
set (padded := main (set_argv [prog; l ++ arg ++ r] w)).
set (bare := main (set_argv [prog; arg] w)).
pose proof (main_strips_argument w prog (l ++ arg ++ r)) as Hp.
pose proof (main_strips_argument w prog arg) as Hb.
rewrite (strip_padded l arg r Hl Hr) in Hp. rewrite Hp in Hb.
fold padded in Hb. fold bare in Hb.
injection Hb as Hres _ _ _ _ _ Hfiles Hdirs Hstdout Hstderr Htrace.
now repeat split.
Qed.

End Padding.

(** ** The further properties on the sample machine *)

Section MoreExamples.
Import Samples MoreSamples.
Local Open Scope Z_scope.


(** X1 on the sample machine without Pillow. *)
Lemma missing_pillow_stops_the_script_witness :
pillow_importable (without_pillow [script_name; "icon.png"%string]) = false /\
(script (without_pillow [script_name; "icon.png"%string])).1 = SysExit 1 /\
exit_status (script (without_pillow [script_name; "icon.png"%string])).1 = 1 /\
stderr (script (without_pillow [script_name; "icon.png"%string])).2 =
  (stderr (without_pillow [script_name; "icon.png"])
   ++ "Need Pillow: pip install Pillow" ++ newline)%string /\
files (script (without_pillow [script_name; "icon.png"%string])).2
  = files (without_pillow [script_name; "icon.png"%string]) /\
dirs (script (without_pillow [script_name; "icon.png"%string])).2
  = dirs (without_pillow [script_name; "icon.png"%string]) /\
stdout (script (without_pillow [script_name; "icon.png"%string])).2
  = stdout (without_pillow [script_name; "icon.png"%string]) /\
trace (script (without_pillow [script_name; "icon.png"%string])).2
  = trace (without_pillow [script_name; "icon.png"%string]).
Proof.
split; [reflexivity|].
apply (missing_pillow_stops_the_script
         (without_pillow [script_name; "icon.png"%string])).
reflexivity.
Defined.


(** X3 on the sample machine: the source file is as it was. *)
Lemma run_touches_two_files_at_most_witness :
files (main run_local).2 !! "/home/dev/icon.png"%string
  = files run_local !! "/home/dev/icon.png"%string /\
dirs run_local ⊆ dirs (main run_local).2.
Proof.
apply (run_touches_two_files_at_most run_local "/home/dev/icon.png").
- intros E. vm_compute in E. discriminate.
- intros E. vm_compute in E. discriminate.
Defined.

(** X5 on a URL that answers with a page. *)
Lemma fetched_file_is_unlinked_witness :
files (main (serves_a_page [script_name; page_url])).2
  !! tmp_name (serves_a_page [script_name; page_url]) = None /\
exists rest,
  trace (main (serves_a_page [script_name; page_url])).2 =
  (trace (serves_a_page [script_name; page_url])
   ++ [EvTempFile (tmp_name (serves_a_page [script_name; page_url]));
       EvUrlRetrieve (strip page_url)
         (tmp_name (serves_a_page [script_name; page_url]));
       EvImageOpen (tmp_name (serves_a_page [script_name; page_url]));
       EvUnlink (tmp_name (serves_a_page [script_name; page_url]))]
   ++ rest)%list.
Proof.
apply (fetched_file_is_unlinked (serves_a_page [script_name; page_url])
         script_name page_url [Byte.x3c; Byte.x68; Byte.x31]).
- reflexivity.
- vm_compute. reflexivity.
- vm_compute. reflexivity.
- intros Hin. pose proof (bool_decide_eq_true_2 _ Hin) as Hb.
  vm_compute in Hb. discriminate.
- vm_compute. reflexivity.
- intros E. vm_compute in E. discriminate.
Defined.

(** X7 on the sample machine. *)
Lemma second_run_changes_nothing_witness :
(main run_local).1 = Return tt /\
(main (main run_local).2).1 = Return tt /\
files (main (main run_local).2).2 = files (main run_local).2 /\
dirs (main (main run_local).2).2 = dirs (main run_local).2.
Proof.
split; [exact run_local_returns|].
apply (second_run_changes_nothing run_local run_local_returns).
change (sys_argv run_local) with [script_name; "icon.png"%string].
cbn [nth].
replace (is_url (strip "icon.png")) with false
  by (vm_compute; reflexivity).
intros E. vm_compute in E. discriminate.
Defined.

(** X9 on the sample machine. *)
Lemma destination_is_absolute_witness :
isabs (cwd run_local) = true /\
isabs (out_path run_local) = true /\
isabs (abspath (cwd run_local) "icon.png") = true.
Proof.
split; [reflexivity|].
apply (destination_is_absolute run_local "icon.png"). reflexivity.
Defined.

(** X10 on an image of the full size. *)
Lemma resize_of_full_size_icon_witness :
getpixel (resize (coordinates 1024 1024) (1024, 1024)) 5 7
= getpixel (coordinates 1024 1024) 5 7.
Proof.
apply (resize_of_full_size_icon (coordinates 1024 1024) 5 7).
- apply coordinates_wf; lia.
- reflexivity.
- reflexivity.
Defined.

(** X11 on a 3x3 image. *)
Lemma upscaling_keeps_every_source_pixel_witness :
(exists x y, 0 <= x < 1024 /\ 0 <= y < 1024 /\
             scale_coord (xsize (coordinates 3 3)) 1024 x = 1 /\
             scale_coord (ysize (coordinates 3 3)) 1024 y = 2 /\
             getpixel (resize (coordinates 3 3) (1024, 1024)) x y
             = getpixel (coordinates 3 3) 1 2) /\
(forall x x', x <= x' ->
   scale_coord (xsize (coordinates 3 3)) 1024 x
   <= scale_coord (xsize (coordinates 3 3)) 1024 x') /\
(forall y y', y <= y' ->
   scale_coord (ysize (coordinates 3 3)) 1024 y
   <= scale_coord (ysize (coordinates 3 3)) 1024 y').
Proof.
apply (upscaling_keeps_every_source_pixel (coordinates 3 3) 1 2).
- apply coordinates_wf; lia.
- simpl; lia.
- simpl; lia.
- simpl; lia.
- simpl; lia.
Defined.

(** X12 on the sample machine: a tab before the path and a newline after
  it. *)
Lemma padding_is_ignored_witness :
all_space (String "009"%char "") = true /\
all_space newline = true /\
(main (set_argv [script_name;
                 (String "009"%char "" ++ "icon.png" ++ newline)%string]
         run_local)).1
  = (main (set_argv [script_name; "icon.png"%string] run_local)).1 /\
files (main (set_argv [script_name;
                 (String "009"%char "" ++ "icon.png" ++ newline)%string]
         run_local)).2
  = files (main (set_argv [script_name; "icon.png"%string] run_local)).2 /\
dirs (main (set_argv [script_name;
                 (String "009"%char "" ++ "icon.png" ++ newline)%string]
         run_local)).2
  = dirs (main (set_argv [script_name; "icon.png"%string] run_local)).2 /\
stdout (main (set_argv [script_name;
                 (String "009"%char "" ++ "icon.png" ++ newline)%string]
         run_local)).2
  = stdout (main (set_argv [script_name; "icon.png"%string] run_local)).2 /\
stderr (main (set_argv [script_name;
                 (String "009"%char "" ++ "icon.png" ++ newline)%string]
         run_local)).2
  = stderr (main (set_argv [script_name; "icon.png"%string] run_local)).2 /\
trace (main (set_argv [script_name;
                 (String "009"%char "" ++ "icon.png" ++ newline)%string]
         run_local)).2
  = trace (main (set_argv [script_name; "icon.png"%string] run_local)).2.
Proof.
split; [vm_compute; reflexivity|].
split; [vm_compute; reflexivity|].
apply (padding_is_ignored run_local script_name "icon.png"
         (String "009"%char "") newline).
- vm_compute. reflexivity.
- vm_compute. reflexivity.
Defined.

(** X13 on a URL that answers with a page. *)
Lemma no_directory_before_the_image_is_decoded_witness :
(main (serves_a_page [script_name; page_url])).1 <> Return tt /\
dirs (main (serves_a_page [script_name; page_url])).2
  = dirs (serves_a_page [script_name; page_url]) /\
exists evs,
  trace (main (serves_a_page [script_name; page_url])).2
    = (trace (serves_a_page [script_name; page_url]) ++ evs)%list /\
  Forall (fun e => is_output_event e = false) evs.
Proof.
apply (no_directory_before_the_image_is_decoded
         (serves_a_page [script_name; page_url])).
intros prog arg img evs Hargv Hacq.
injection Hargv as <- <-.
inversion Hacq as [data Hurl Hf Hd Hnet Hdec|data Hurl Hfile Hdec].
- vm_compute in Hnet. injection Hnet as <-.
  vm_compute in Hdec. discriminate.
- vm_compute in Hurl. discriminate.
Defined.

End MoreExamples.
